(** * Voice-command orchestration: the recognition hook, the language
      utilities and the chat page

    Shallow embedding of
      - frontend/src/hooks/useVoiceRecognition.ts   (the hook),
      - frontend/src/types/speech.ts                (its types),
      - frontend/src/app/chat/page.tsx              (onTranscriptReady,
        handleVoiceTranscript, sendMessage, handleKeyPress, the error
        banner, the buttons, containsUrdu),
      - the listing of frontend/src/utils/languageDetection.ts given in
        specs/002-voice-commands/quickstart.md, with the table of
        messages of specs/002-voice-commands/plan.md as a sample.

    A JavaScript string is its sequence of UTF-16 code units.  React state
    is a record; one event handler is one atomic state transformer (React
    batches the setters of a handler into a single render).  What a handler
    does to the outside world (constructing or starting the recogniser,
    calling the page's callback, console output, posting a request) is
    returned as a list of effects. *)

From Stdlib Require Import NArith Lia Bool String Ascii.
From stdpp Require Import base option list gmap.

Local Open Scope N_scope.

(* ===================================================================== *)
(** * JavaScript strings *)
(* ===================================================================== *)

Module JS.

(** A string value: UTF-16 code units, each below [0x10000]. *)
Definition jsstring : Type := list N.

(** An ASCII literal as a JavaScript string. *)
Definition lit (s : string) : jsstring :=
  map N_of_ascii (list_ascii_of_string s).

(** [ToBoolean] on strings: only the empty string is falsy. *)
Definition truthy (s : jsstring) : bool :=
  match s with
  | [] => false
  | _ :: _ => true
  end.

(** [a || b] on strings. *)
Definition or_else (a b : jsstring) : jsstring :=
  if truthy a then a else b.

Definition isHighSurrogate (u : N) : bool := (0xD800 <=? u) && (u <=? 0xDBFF).
Definition isLowSurrogate (u : N) : bool := (0xDC00 <=? u) && (u <=? 0xDFFF).

(** The code points of a string (ECMAScript [CodePointAt], iterated): a
    high surrogate followed by a low surrogate is one supplementary code
    point, every other code unit is a code point of its own. *)
Fixpoint codePoints (s : jsstring) : list N :=
  match s with
  | [] => []
  | u :: rest =>
      match rest with
      | l :: rest' =>
          if isHighSurrogate u && isLowSurrogate l
          then (0x10000 + (u - 0xD800) * 0x400 + (l - 0xDC00)) :: codePoints rest'
          else u :: codePoints rest
      | [] => [u]
      end
  end.

(** ECMAScript [WhiteSpace] and [LineTerminator] code units, the ones
    [String.prototype.trim] strips. *)
Definition isWhiteSpace (u : N) : bool :=
  ((0x0009 <=? u) && (u <=? 0x000D))
  || (u =? 0x0020) || (u =? 0x00A0) || (u =? 0x1680)
  || ((0x2000 <=? u) && (u <=? 0x200A))
  || (u =? 0x2028) || (u =? 0x2029) || (u =? 0x202F)
  || (u =? 0x205F) || (u =? 0x3000) || (u =? 0xFEFF).

Fixpoint trimStart (s : jsstring) : jsstring :=
  match s with
  | [] => []
  | u :: rest => if isWhiteSpace u then trimStart rest else s
  end.

(** [s.trim()]. *)
Definition trim (s : jsstring) : jsstring :=
  rev (trimStart (rev (trimStart s))).

(** The value of a call: it returns, or it throws. *)
Inductive Completion (A : Type) : Type :=
| Normal (a : A)
| Throw (exn : jsstring).
Global Arguments Normal {A} a.
Global Arguments Throw {A} exn.

End JS.

Import JS.

(* ===================================================================== *)
(** * utils/languageDetection *)
(* ===================================================================== *)

(** The two display languages, ['en' | 'ur']. *)
Inductive Lang : Type := en | ur.

#[global] Instance Lang_eq_dec : EqDecision Lang.
Proof. solve_decision. Defined.

Module LanguageDetection.

(** The character class [[\u0600-\u06FF]] of the regular expression: it
    has no [u] flag, so it is matched against single code units. *)
Definition urduRegex_class (u : N) : bool := (0x0600 <=? u) && (u <=? 0x06FF).

(** [containsUrdu]: [/[\u0600-\u06FF]/.test(text)], as in chat/page.tsx
    and in the listing of the utilities. *)
Definition containsUrdu (text : jsstring) : bool :=
  existsb urduRegex_class text.

(** [detectLanguage]: [containsUrdu(text) ? 'ur' : 'en']. *)
Definition detectLanguage (text : jsstring) : Lang :=
  if containsUrdu text then ur else en.

(** [getLanguageCode]: [lang === 'en' ? 'en-US' : 'ur-PK']. *)
Definition getLanguageCode (lang : Lang) : jsstring :=
  match lang with
  | en => lit "en-US"
  | ur => lit "ur-PK"
  end.

(** [getTextDirection] of the chat page. *)
Definition getTextDirection (text : jsstring) : jsstring :=
  if containsUrdu text then lit "rtl" else lit "ltr".

(** One entry of the messages object, [{ en: ..., ur: ... }]. *)
Record Localized : Type := { msg_en : jsstring; msg_ur : jsstring }.

(** [entry[lang]]. *)
Definition select (entry : Localized) (lang : Lang) : jsstring :=
  match lang with
  | en => msg_en entry
  | ur => msg_ur entry
  end.

(** The table ERROR_MESSAGES of specs/002-voice-commands/plan.md (lines
    1004 to 1021), to which the listing of [getVoiceErrorMessage] points
    for its messages.  It has an entry for four of the six codes of
    [SpeechRecognitionErrorCode]: none for ['aborted'], none for
    ['not-supported'].  The messages object of the shipped function is
    not among the sources; this table serves as the sample object of the
    examples below. *)
Definition ERROR_MESSAGES : gmap jsstring Localized :=
  <[ lit "not-allowed" :=
       {| msg_en := lit "Microphone access denied. Please allow microphone permissions.";
          msg_ur := [0x0645; 0x0627; 0x0626; 0x06CC; 0x06A9; 0x0631; 0x0648; 0x0641;
                     0x0648; 0x0646; 0x0020; 0x06A9; 0x06CC; 0x0020; 0x0627; 0x062C;
                     0x0627; 0x0632; 0x062A; 0x0020; 0x0646; 0x06C1; 0x06CC; 0x06BA;
                     0x0020; 0x06C1; 0x06D2; 0x06D4; 0x0020; 0x0628; 0x0631; 0x0627;
                     0x06C1; 0x0020; 0x06A9; 0x0631; 0x0645; 0x0020; 0x0627; 0x062C;
                     0x0627; 0x0632; 0x062A; 0x0020; 0x062F; 0x06CC; 0x06BA; 0x06D4] |} ]>
  (<[ lit "no-speech" :=
       {| msg_en := lit "No speech detected. Please try again.";
          msg_ur := [0x0622; 0x0648; 0x0627; 0x0632; 0x0020; 0x0646; 0x06C1; 0x06CC;
                     0x06BA; 0x0020; 0x0633; 0x0646; 0x06CC; 0x0020; 0x06AF; 0x0626;
                     0x06CC; 0x06D4; 0x0020; 0x062F; 0x0648; 0x0628; 0x0627; 0x0631;
                     0x06C1; 0x0020; 0x06A9; 0x0648; 0x0634; 0x0634; 0x0020; 0x06A9;
                     0x0631; 0x06CC; 0x06BA; 0x06D4] |} ]>
  (<[ lit "audio-capture" :=
       {| msg_en := lit "Microphone not found. Please check your device.";
          msg_ur := [0x0645; 0x0627; 0x0626; 0x06CC; 0x06A9; 0x0631; 0x0648; 0x0641;
                     0x0648; 0x0646; 0x0020; 0x0646; 0x06C1; 0x06CC; 0x06BA; 0x0020;
                     0x0645; 0x0644; 0x0627; 0x06D4; 0x0020; 0x0627; 0x067E; 0x0646;
                     0x0627; 0x0020; 0x0622; 0x0644; 0x06C1; 0x0020; 0x0686; 0x06CC;
                     0x06A9; 0x0020; 0x06A9; 0x0631; 0x06CC; 0x06BA; 0x06D4] |} ]>
  (<[ lit "network" :=
       {| msg_en := lit "Network error. Please check your connection.";
          msg_ur := [0x0646; 0x06CC; 0x0679; 0x0020; 0x0648; 0x0631; 0x06A9; 0x0020;
                     0x062E; 0x0631; 0x0627; 0x0628; 0x06CC; 0x06D4; 0x0020; 0x0627;
                     0x067E; 0x0646; 0x0627; 0x0020; 0x06A9; 0x0646; 0x06A9; 0x0634;
                     0x0646; 0x0020; 0x0686; 0x06CC; 0x06A9; 0x0020; 0x06A9; 0x0631;
                     0x06CC; 0x06BA; 0x06D4] |} ]>
   ∅))).

(** Modelled from the spec: [getVoiceErrorMessage] of
    frontend/src/utils/languageDetection.ts, which is not among the
    sources.  It follows the listing of the function in
    specs/002-voice-commands/quickstart.md,
      [return messages[code]?.[lang] || messages['network'][lang];]
    over an arbitrary messages object: a missing entry is [undefined] and
    falls through [||] like an empty message; reading [[lang]] of a missing
    ['network'] entry is a TypeError. *)
Definition getVoiceErrorMessage_in (messages : gmap jsstring Localized)
    (code : jsstring) (lang : Lang) : Completion jsstring :=
  let own :=
    match messages !! code with
    | Some entry => select entry lang
    | None => []
    end in
  if truthy own then Normal own
  else
    match messages !! lit "network" with
    | Some entry => Normal (select entry lang)
    | None => Throw (lit "TypeError")
    end.

(** The listed function over the table of plan.md. *)
Definition getVoiceErrorMessage (code : jsstring) (lang : Lang)
    : Completion jsstring :=
  getVoiceErrorMessage_in ERROR_MESSAGES code lang.

(** The message a caller gets to display: the returned string. *)
Definition returned (c : Completion jsstring) : jsstring :=
  match c with
  | Normal m => m
  | Throw _ => []
  end.


End LanguageDetection.

Import LanguageDetection.

(* ===================================================================== *)
(** * types/speech *)
(* ===================================================================== *)

Module Speech.

(** [SpeechRecognitionAlternative]; its [confidence], a float, is never
    read by the hook. *)
Record SpeechRecognitionAlternative : Type := { transcript : jsstring }.

(** [SpeechRecognitionResult]: [isFinal] and the best alternative,
    [result[0]] (the recogniser is configured with [maxAlternatives = 1]). *)
Record SpeechRecognitionResult : Type :=
  { isFinal : bool; item0 : SpeechRecognitionAlternative }.

Record SpeechRecognitionEvent : Type :=
  { resultIndex : nat; results : list SpeechRecognitionResult }.

(** [VoiceRecognitionConfig].  [autoDetect?: boolean] may be absent.  The
    callback [onTranscriptReady] is the effect [TranscriptReady] below. *)
Record VoiceRecognitionConfig : Type :=
  { language : Lang; autoDetect : option bool }.

(** Where the browser's recogniser is between [start()] and its [end]
    event: not started; started, [start] event pending; listening (results
    may arrive); final result delivered, [end] event pending; failed,
    [end] event pending. *)
Inductive Phase : Type := Idle | Starting | Listening | Finalised | Ending.

(** The [SpeechRecognition] instance: the attributes the hook writes, and
    the browser's side of it. *)
Record SpeechRecognition : Type :=
  { continuous : bool;
    interimResults : bool;
    maxAlternatives : nat;
    lang : jsstring;
    phase : Phase }.

Definition with_lang (tag : jsstring) (r : SpeechRecognition) : SpeechRecognition :=
  {| continuous := continuous r; interimResults := interimResults r;
     maxAlternatives := maxAlternatives r; lang := tag; phase := phase r |}.

Definition with_phase (p : Phase) (r : SpeechRecognition) : SpeechRecognition :=
  {| continuous := continuous r; interimResults := interimResults r;
     maxAlternatives := maxAlternatives r; lang := lang r; phase := p |}.

(** [recognition.start()]: the browser throws InvalidStateError when the
    instance is already started, which is what the [try]/[catch] of
    [startRecording] is there for; otherwise recognition begins and the
    [start] event follows. *)
Definition start (r : SpeechRecognition) : Completion SpeechRecognition :=
  match phase r with
  | Idle => Normal (with_phase Starting r)
  | _ => Throw (lit "InvalidStateError")
  end.

End Speech.

#[global] Instance Phase_eq_dec : EqDecision Speech.Phase.
Proof. solve_decision. Defined.

(* ===================================================================== *)
(** * hooks/useVoiceRecognition *)
(* ===================================================================== *)

Module Hook.

Import Speech.

(** What a handler does outside the hook's own state. *)
Inductive Effect : Type :=
| NewSpeechRecognition                      (* new SpeechRecognitionAPI() *)
| RecognitionStart (tag : jsstring)         (* start() accepted, with this lang *)
| RecognitionStop                           (* stop() *)
| TranscriptReady (text : jsstring) (detected : option Lang)
                                            (* config.onTranscriptReady(text, detected) *)
| ConsoleError                              (* console.error(...) *)
| ClearTimeout (id : nat).                  (* clearTimeout(id) *)

(** The hook's state: the host's answer to the support probe, the props of
    the latest render, the props the mount effect closed over (its
    dependency list is empty, so the handlers it installs keep reading
    those), the five [useState] cells and the two refs. *)
Record State : Type :=
  { isSupported : bool;
    config : VoiceRecognitionConfig;
    mountConfig : VoiceRecognitionConfig;
    isRecording : bool;
    isTranscribing : bool;
    transcript : jsstring;
    error : option jsstring;
    detectedLanguage : option Lang;
    recognitionRef : option SpeechRecognition;
    timeoutRef : option nat }.

Definition setIsRecording (b : bool) (s : State) : State :=
  {| isSupported := isSupported s; config := config s; mountConfig := mountConfig s;
     isRecording := b; isTranscribing := isTranscribing s;
     transcript := transcript s; error := error s;
     detectedLanguage := detectedLanguage s;
     recognitionRef := recognitionRef s; timeoutRef := timeoutRef s |}.

Definition setIsTranscribing (b : bool) (s : State) : State :=
  {| isSupported := isSupported s; config := config s; mountConfig := mountConfig s;
     isRecording := isRecording s; isTranscribing := b;
     transcript := transcript s; error := error s;
     detectedLanguage := detectedLanguage s;
     recognitionRef := recognitionRef s; timeoutRef := timeoutRef s |}.

Definition setTranscript (t : jsstring) (s : State) : State :=
  {| isSupported := isSupported s; config := config s; mountConfig := mountConfig s;
     isRecording := isRecording s; isTranscribing := isTranscribing s;
     transcript := t; error := error s;
     detectedLanguage := detectedLanguage s;
     recognitionRef := recognitionRef s; timeoutRef := timeoutRef s |}.

Definition setError (e : option jsstring) (s : State) : State :=
  {| isSupported := isSupported s; config := config s; mountConfig := mountConfig s;
     isRecording := isRecording s; isTranscribing := isTranscribing s;
     transcript := transcript s; error := e;
     detectedLanguage := detectedLanguage s;
     recognitionRef := recognitionRef s; timeoutRef := timeoutRef s |}.

Definition setDetectedLanguage (d : option Lang) (s : State) : State :=
  {| isSupported := isSupported s; config := config s; mountConfig := mountConfig s;
     isRecording := isRecording s; isTranscribing := isTranscribing s;
     transcript := transcript s; error := error s;
     detectedLanguage := d;
     recognitionRef := recognitionRef s; timeoutRef := timeoutRef s |}.

Definition setRecognitionRef (r : option SpeechRecognition) (s : State) : State :=
  {| isSupported := isSupported s; config := config s; mountConfig := mountConfig s;
     isRecording := isRecording s; isTranscribing := isTranscribing s;
     transcript := transcript s; error := error s;
     detectedLanguage := detectedLanguage s;
     recognitionRef := r; timeoutRef := timeoutRef s |}.

Definition setConfig (c : VoiceRecognitionConfig) (s : State) : State :=
  {| isSupported := isSupported s; config := c; mountConfig := mountConfig s;
     isRecording := isRecording s; isTranscribing := isTranscribing s;
     transcript := transcript s; error := error s;
     detectedLanguage := detectedLanguage s;
     recognitionRef := recognitionRef s; timeoutRef := timeoutRef s |}.

(** The loop of [onresult]: from [resultIndex] on, final results are
    appended to [finalTranscript], the others to [interimTranscript]. *)
Fixpoint collect (rs : list SpeechRecognitionResult)
    (interimTranscript finalTranscript : jsstring) : jsstring * jsstring :=
  match rs with
  | [] => (interimTranscript, finalTranscript)
  | result :: rest =>
      if isFinal result
      then collect rest interimTranscript
                   (finalTranscript ++ Speech.transcript (item0 result))
      else collect rest (interimTranscript ++ Speech.transcript (item0 result))
                   finalTranscript
  end.

Definition interimTranscript (event : SpeechRecognitionEvent) : jsstring :=
  fst (collect (drop (resultIndex event) (results event)) [] []).

Definition finalTranscript (event : SpeechRecognitionEvent) : jsstring :=
  snd (collect (drop (resultIndex event) (results event)) [] []).

(** [config.autoDetect !== false]. *)
Definition autoDetect_enabled (c : VoiceRecognitionConfig) : bool :=
  match autoDetect c with
  | Some false => false
  | _ => true
  end.

Section Handlers.

(** [getVoiceErrorMessage], imported from utils/languageDetection: any
    function of its declared type, [(code, lang) => string]. *)
Variable getVoiceErrorMessage : jsstring -> Lang -> jsstring.

(** The first render and the mount effects: the [useState] initial values;
    if the host has the capability, one recogniser is constructed and
    configured, and the ref points to it. *)
Definition mount (supported : bool) (c : VoiceRecognitionConfig)
    : State * list Effect :=
  let s0 :=
    {| isSupported := supported; config := c; mountConfig := c;
       isRecording := false; isTranscribing := false;
       transcript := []; error := None; detectedLanguage := None;
       recognitionRef := None; timeoutRef := None |} in
  if supported
  then (setRecognitionRef
          (Some {| continuous := false; interimResults := true;
                   maxAlternatives := 1;
                   lang := getLanguageCode (language c);
                   phase := Idle |}) s0,
        [NewSpeechRecognition])
  else (s0, []).

(** [recognition.onstart]. *)
Definition onstart (s : State) : State :=
  setError None (setIsTranscribing true (setIsRecording true s)).

(** [recognition.onresult]. *)
Definition onresult (event : SpeechRecognitionEvent) (s : State)
    : State * list Effect :=
  let interimTranscript := interimTranscript event in
  let finalTranscript := finalTranscript event in
  let currentTranscript := or_else finalTranscript interimTranscript in
  let s1 := setTranscript currentTranscript s in
  if truthy finalTranscript
  then
    let detectedLang :=
      if autoDetect_enabled (mountConfig s)
      then Some (detectLanguage finalTranscript) else None in
    (setDetectedLanguage detectedLang (setIsTranscribing false s1),
     [TranscriptReady finalTranscript detectedLang])
  else (setIsTranscribing true s1, []).

(** [recognition.onerror]. *)
Definition onerror (code : jsstring) (s : State) : State :=
  let errorMessage := getVoiceErrorMessage code (language (mountConfig s)) in
  setError (Some errorMessage) (setIsTranscribing false (setIsRecording false s)).

(** [recognition.onend]. *)
Definition onend (s : State) : State :=
  setIsTranscribing false (setIsRecording false s).

(** The effect on [config.language]. *)
Definition languageEffect (s : State) : State :=
  match recognitionRef s with
  | Some r =>
      if isSupported s
      then setRecognitionRef
             (Some (with_lang (getLanguageCode (language (config s))) r)) s
      else s
  | None => s
  end.

(** A render with new props; the language effect runs when
    [config.language] has changed. *)
Definition rerender (c : VoiceRecognitionConfig) (s : State) : State :=
  let s1 := setConfig c s in
  if decide (language c = language (config s)) then s1 else languageEffect s1.

(** [startRecording]. *)
Definition startRecording (s : State) : State * list Effect :=
  if negb (isSupported s)
  then (setError (Some (getVoiceErrorMessage (lit "not-supported")
                                             (language (config s)))) s, [])
  else
    match recognitionRef s with
    | Some r =>
        let r1 := with_lang (getLanguageCode (language (config s))) r in
        match start r1 with
        | Normal r2 => (setRecognitionRef (Some r2) s, [RecognitionStart (lang r2)])
        | Throw _ =>
            (setError (Some (getVoiceErrorMessage (lit "not-allowed")
                                                  (language (config s))))
                      (setRecognitionRef (Some r1) s),
             [ConsoleError])
        end
    | None => (s, [])
    end.

(** [stopRecording]. *)
Definition stopRecording (s : State) : State * list Effect :=
  match recognitionRef s with
  | Some _ => (s, [RecognitionStop])
  | None => (s, [])
  end.

(** [resetTranscript]. *)
Definition resetTranscript (s : State) : State :=
  setError None (setTranscript [] s).

(** The clean-up functions of the two mount effects, run at unmount. *)
Definition unmount (s : State) : State * list Effect :=
  let timers :=
    match timeoutRef s with
    | Some id => [ClearTimeout id]
    | None => []
    end in
  match recognitionRef s with
  | Some _ =>
      if isSupported s
      then (setRecognitionRef None s, timers ++ [RecognitionStop])
      else (s, timers)
  | None => (s, timers)
  end.

(** What can happen to a mounted hook: the three actions, a render with
    new props, and the four events of the recogniser. *)
Inductive Event : Type :=
| StartRecording
| StopRecording
| ResetTranscript
| Rerender (c : VoiceRecognitionConfig)
| OnStart
| OnResult (event : SpeechRecognitionEvent)
| OnError (code : jsstring)
| OnEnd.

(** Whether a result event brings a final result. *)
Definition bringsFinal (event : SpeechRecognitionEvent) : bool :=
  existsb isFinal (drop (resultIndex event) (results event)).

(** The browser's side of an event: the phase the instance is in once the
    event has been fired.  A recogniser that is not [continuous] returns no
    more than one final result per start: after it, only [end] follows. *)
Definition fired (ev : Event) (r : SpeechRecognition) : SpeechRecognition :=
  match ev with
  | OnStart => with_phase Listening r
  | OnResult event =>
      if negb (continuous r) && bringsFinal event
      then with_phase Finalised r else r
  | OnError _ => with_phase Ending r
  | OnEnd => with_phase Idle r
  | _ => r
  end.

(** One step.  The recogniser's events reach the handlers only when there
    is an instance to carry them. *)
Definition handle (ev : Event) (s : State) : State * list Effect :=
  match ev with
  | StartRecording => startRecording s
  | StopRecording => stopRecording s
  | ResetTranscript => (resetTranscript s, [])
  | Rerender c => (rerender c s, [])
  | OnStart | OnResult _ | OnError _ | OnEnd =>
      match recognitionRef s with
      | None => (s, [])
      | Some r =>
          let s1 := setRecognitionRef (Some (fired ev r)) s in
          match ev with
          | OnStart => (onstart s1, [])
          | OnResult event => onresult event s1
          | OnError code => (onerror code s1, [])
          | _ => (onend s1, [])
          end
      end
  end.

(** A sequence of steps, with everything it did to the outside. *)
Fixpoint run (evs : list Event) (s : State) : State * list Effect :=
  match evs with
  | [] => (s, [])
  | ev :: rest =>
      let '(s1, out1) := handle ev s in
      let '(s2, out2) := run rest s1 in
      (s2, out1 ++ out2)
  end.

(** The recogniser's protocol: which of its events the browser can fire in
    which phase.  Actions and renders can happen at any time. *)
Definition enabled (ev : Event) (s : State) : bool :=
  match ev with
  | OnStart =>
      match recognitionRef s with
      | Some r => bool_decide (phase r = Starting)
      | None => false
      end
  | OnResult _ =>
      match recognitionRef s with
      | Some r => bool_decide (phase r = Listening)
      | None => false
      end
  | OnError _ =>
      match recognitionRef s with
      | Some r => bool_decide (phase r = Starting \/ phase r = Listening)
      | None => false
      end
  | OnEnd =>
      match recognitionRef s with
      | Some r => negb (bool_decide (phase r = Idle))
      | None => false
      end
  | _ => true
  end.

(** The states a mounted hook can be in. *)
Inductive reachable (supported : bool) (c : VoiceRecognitionConfig)
    : State -> Prop :=
| reachable_mount : reachable supported c (fst (mount supported c))
| reachable_step s ev :
    reachable supported c s ->
    enabled ev s = true ->
    reachable supported c (fst (handle ev s)).

End Handlers.

(** The calls of [config.onTranscriptReady] among some effects. *)
Definition transcriptReadyCalls (out : list Effect)
    : list (jsstring * option Lang) :=
  omap (fun e => match e with
                 | TranscriptReady text detected => Some (text, detected)
                 | _ => None
                 end) out.

(** Whether a session is open that has not had its final result or failed:
    the recogniser is started and may still deliver results. *)
Definition awaitingResult (s : State) : bool :=
  match recognitionRef s with
  | Some r => bool_decide (phase r = Starting \/ phase r = Listening)
  | None => false
  end.

(** Whether an effect opens a capability handle: constructs a recogniser
    or starts one. *)
Definition opensHandle (e : Effect) : bool :=
  match e with
  | NewSpeechRecognition | RecognitionStart _ => true
  | _ => false
  end.

End Hook.

(* ===================================================================== *)
(** * app/chat/page: the voice path *)
(* ===================================================================== *)

Module ChatPage.

Import Speech.

(** The browser's timer table: the armed timers, each with the transcript
    its callback closed over, and the next handle.  Handles are positive
    integers, never reused. *)
Record Timers : Type :=
  { pending : gmap nat jsstring; nextHandle : nat }.

(** [setTimeout(() => { if (transcript.trim()) sendMessage(); }, 300)]:
    the handle, and the table with the new timer armed. *)
Definition setTimeout (transcript : jsstring) (t : Timers) : nat * Timers :=
  (nextHandle t,
   {| pending := <[nextHandle t := transcript]> (pending t);
      nextHandle := S (nextHandle t) |}).

(** [clearTimeout(id)]: an armed timer is disarmed, anything else is
    ignored. *)
Definition clearTimeout (id : nat) (t : Timers) : Timers :=
  {| pending := delete id (pending t); nextHandle := nextHandle t |}.

(** The page state the voice path touches. *)
Record State : Type :=
  { inputMessage : jsstring;
    language : Lang;
    timeoutRef : option nat }.

(** The page's [useState] initial values and empty ref. *)
Definition initial : State :=
  {| inputMessage := []; language := en; timeoutRef := None |}.

Definition setInputMessage (m : jsstring) (p : State) : State :=
  {| inputMessage := m; language := language p; timeoutRef := timeoutRef p |}.

Definition setLanguage (l : Lang) (p : State) : State :=
  {| inputMessage := inputMessage p; language := l; timeoutRef := timeoutRef p |}.

Definition setTimeoutRef (r : option nat) (p : State) : State :=
  {| inputMessage := inputMessage p; language := language p; timeoutRef := r |}.

(** [if (timeoutRef.current)]: [null] and [0] are falsy. *)
Definition armedHandle (r : option nat) : option nat :=
  match r with
  | Some (S n) => Some (S n)
  | _ => None
  end.

(** [handleVoiceTranscript]. *)
Definition handleVoiceTranscript (transcript : jsstring)
    (pt : State * Timers) : State * Timers :=
  let '(p, t) := pt in
  let p1 := setInputMessage transcript p in
  let t1 :=
    match armedHandle (timeoutRef p1) with
    | Some id => clearTimeout id t
    | None => t
    end in
  let '(id, t2) := setTimeout transcript t1 in
  (setTimeoutRef (Some id) p1, t2).

(** The [onTranscriptReady] the page passes to the hook.  The hook calls
    the one of the first render, in which [language] is the initial
    ['en']. *)
Definition onTranscriptReady (text : jsstring) (detectedLanguage : option Lang)
    (pt : State * Timers) : State * Timers :=
  let '(p, t) := pt in
  let p1 := setInputMessage text p in
  let p2 :=
    match detectedLanguage with
    | Some d => if decide (d = language initial) then p1 else setLanguage d p1
    | None => p1
    end in
  handleVoiceTranscript text (p2, t).

(** [toggleLanguage]. *)
Definition toggleLanguage (p : State) : State :=
  setLanguage (match language p with en => ur | ur => en end) p.

(** The page with its hook and the browser's timers. *)
Record System : Type :=
  { hook : Hook.State; page : State; timers : Timers }.

(** What the page does to the outside: what its hook does, and the calls
    of [sendMessage] (the hand-over to the message pipeline). *)
Inductive Output : Type :=
| Voice (e : Hook.Effect)
| SendMessage.

Inductive Event : Type :=
| FromHook (ev : Hook.Event)     (* an action or a recogniser event *)
| ToggleLanguage                 (* the language button *)
| Timeout (id : nat).            (* the browser runs the timer [id] *)

(** The protocol of the whole page: the recogniser's events as the hook's
    protocol has them, and a timer runs only while it is armed. *)
Definition enabled (ev : Event) (sys : System) : bool :=
  match ev with
  | FromHook hev => Hook.enabled hev (hook sys)
  | ToggleLanguage => true
  | Timeout id => bool_decide (is_Some (pending (timers sys) !! id))
  end.

Section Page.

Variable getVoiceErrorMessage : jsstring -> Lang -> jsstring.

(** The config of a render: [{ language, onTranscriptReady, autoDetect: true }]. *)
Definition configOf (p : State) : VoiceRecognitionConfig :=
  {| Speech.language := language p; autoDetect := Some true |}.

Definition init (supported : bool) : System :=
  {| hook := fst (Hook.mount supported (configOf initial));
     page := initial;
     timers := {| pending := ∅; nextHandle := 1 |} |}.

(** The page's reaction to what the hook did: every [TranscriptReady] is a
    call of [onTranscriptReady]. *)
Fixpoint deliver (out : list Hook.Effect) (pt : State * Timers) : State * Timers :=
  match out with
  | [] => pt
  | Hook.TranscriptReady text detected :: rest =>
      deliver rest (onTranscriptReady text detected pt)
  | _ :: rest => deliver rest pt
  end.

(** One step of the page; the render that follows hands the hook the
    page's current language. *)
Definition step (ev : Event) (sys : System) : System * list Output :=
  match ev with
  | FromHook hev =>
      let '(h1, out) := Hook.handle getVoiceErrorMessage hev (hook sys) in
      let '(p1, t1) := deliver out (page sys, timers sys) in
      ({| hook := Hook.rerender (configOf p1) h1; page := p1; timers := t1 |},
       map Voice out)
  | ToggleLanguage =>
      let p1 := toggleLanguage (page sys) in
      ({| hook := Hook.rerender (configOf p1) (hook sys);
          page := p1; timers := timers sys |}, [])
  | Timeout id =>
      match pending (timers sys) !! id with
      | Some transcript =>
          ({| hook := hook sys; page := page sys;
              timers := clearTimeout id (timers sys) |},
           if truthy (trim transcript) then [SendMessage] else [])
      | None => (sys, [])
      end
  end.

Fixpoint run (evs : list Event) (sys : System) : System * list Output :=
  match evs with
  | [] => (sys, [])
  | ev :: rest =>
      let '(sys1, out1) := step ev sys in
      let '(sys2, out2) := run rest sys1 in
      (sys2, out1 ++ out2)
  end.

(** Whether every event of a run is one the protocol allows when it
    happens. *)
Fixpoint conforms (evs : list Event) (sys : System) : bool :=
  match evs with
  | [] => true
  | ev :: rest => enabled ev sys && conforms rest (fst (step ev sys))
  end.

End Page.

Definition isSendMessage (o : Output) : bool :=
  match o with
  | SendMessage => true
  | _ => false
  end.

Definition isReadyCall (o : Output) : bool :=
  match o with
  | Voice (Hook.TranscriptReady _ _) => true
  | _ => false
  end.

Definition isSessionStart (o : Output) : bool :=
  match o with
  | Voice (Hook.RecognitionStart _) => true
  | _ => false
  end.

(** The number of [sendMessage] calls, of [onTranscriptReady] calls, and of
    sessions started (accepted [start()] calls), among some outputs. *)
Definition dispatches (out : list Output) : nat :=
  length (List.filter isSendMessage out).

Definition readyCalls (out : list Output) : nat :=
  length (List.filter isReadyCall out).

Definition sessions (out : list Output) : nat :=
  length (List.filter isSessionStart out).

(** The result events of a run that carry final text. *)
Definition carriesFinal (ev : Event) : bool :=
  match ev with
  | FromHook (Hook.OnResult event) => truthy (Hook.finalTranscript event)
  | _ => false
  end.

End ChatPage.

(* ===================================================================== *)
(** * app/chat/page: messages, the error banner and the buttons *)
(* ===================================================================== *)

Module Chat.

(** ['user' | 'bot']. *)
Inductive Sender : Type := FromUser | FromBot.

(** One entry of [messages]. *)
Record Message : Type :=
  { id : N; text : jsstring; sender : Sender; timestamp : jsstring }.

(** What the page reads from the clock when it builds a message:
    [Date.now()] and [new Date().toISOString()]. *)
Record Clock : Type := { now : N; iso : jsstring }.

(** The state [sendMessage] works on: [messages], [inputMessage],
    [isLoading], and [user?.id] of the auth context ([None] when there is
    no user). *)
Record State : Type :=
  { messages : list Message;
    inputMessage : jsstring;
    isLoading : bool;
    userId : option jsstring }.

Definition setMessages (f : list Message -> list Message) (s : State) : State :=
  {| messages := f (messages s); inputMessage := inputMessage s;
     isLoading := isLoading s; userId := userId s |}.

Definition setInputMessage (m : jsstring) (s : State) : State :=
  {| messages := messages s; inputMessage := m;
     isLoading := isLoading s; userId := userId s |}.

Definition setIsLoading (b : bool) (s : State) : State :=
  {| messages := messages s; inputMessage := inputMessage s;
     isLoading := b; userId := userId s |}.

(** What a [sendMessage] closure read when its render created it:
    [inputMessage] and [user?.id].  (Its setters are stable, and its
    [setMessages] calls are functional updates on the current list.) *)
Record Render : Type :=
  { r_inputMessage : jsstring; r_userId : option jsstring }.

Definition renderOf (s : State) : Render :=
  {| r_inputMessage := inputMessage s; r_userId := userId s |}.

(** The POST to [/api/${user.id}/chat] with body [{ message }]. *)
Record Request : Type := { url : jsstring; message : jsstring }.

(** [!user?.id]. *)
Definition noUserId (r : Render) : bool :=
  match r_userId r with
  | Some i => negb (truthy i)
  | None => true
  end.

(** [sendMessage], up to its first [await]: the guard, the cleared input,
    the loading flag, the user's message, the request. *)
Definition sendMessage (r : Render) (clock : Clock) (s : State)
    : State * option Request :=
  if negb (truthy (trim (r_inputMessage r))) || noUserId r
  then (s, None)
  else
    let messageToSend := trim (r_inputMessage r) in
    let s1 := setIsLoading true (setInputMessage [] s) in
    let userMessage :=
      {| id := now clock; text := messageToSend; sender := FromUser;
         timestamp := iso clock |} in
    (setMessages (fun prev => prev ++ [userMessage]) s1,
     Some {| url := lit "/api/" ++ default [] (r_userId r) ++ lit "/chat";
             message := messageToSend |}).

(** How the awaited part ends: the response arrives and
    [handleResponse] returns its data, or something throws. *)
Inductive Outcome : Type :=
| Responded (response : jsstring)
| Threw.

(** [sendMessage], from the end of its [await]s on: the bot's message
    (the reply, or the apology of the [catch]), and the [finally]. *)
Definition sendMessage_settled (o : Outcome) (clock : Clock) (s : State) : State :=
  let botMessage :=
    {| id := now clock + 1;
       text := match o with
               | Responded response => response
               | Threw => lit "Sorry, I encountered an error processing your request."
               end;
       sender := FromBot; timestamp := iso clock |} in
  setIsLoading false (setMessages (fun prev => prev ++ [botMessage]) s).

(** The two halves of [sendMessage] as they interleave when several calls
    are in flight. *)
Inductive Op : Type :=
| Send (r : Render) (clock : Clock)
| Settle (o : Outcome) (clock : Clock).

Definition apply (op : Op) (s : State) : State :=
  match op with
  | Send r clock => fst (sendMessage r clock s)
  | Settle o clock => sendMessage_settled o clock s
  end.

(** A key press in the textarea. *)
Record KeyboardEvent : Type := { key : jsstring; shiftKey : bool }.

(** [handleKeyPress]: Enter without Shift sends (and the default action is
    prevented, the second component); anything else is left alone. *)
Definition handleKeyPress (e : KeyboardEvent) (clock : Clock) (s : State)
    : State * option Request * bool :=
  if bool_decide (key e = lit "Enter") && negb (shiftKey e)
  then (sendMessage (renderOf s) clock s, true)
  else ((s, None), false).

(** The Send button's [disabled={isLoading || !inputMessage.trim()}]. *)
Definition sendDisabled (s : State) : bool :=
  isLoading s || negb (truthy (trim (inputMessage s))).

(** The error banner: [voiceError], and the value of
    [voiceRecognition.error] the effect last saw (its dependency). *)
Record Banner : Type :=
  { voiceError : option jsstring; seenError : option jsstring }.

(** The page's first render and its effects: nothing shown, the hook's
    error ([null]) seen. *)
Definition bannerInitial : Banner :=
  {| voiceError := None; seenError := None |}.

(** A render in which the hook reports [error]: the effect on
    [[voiceRecognition.error]] runs when that value has changed, and copies
    it when it is truthy. *)
Definition rendered (error : option jsstring) (b : Banner) : Banner :=
  if decide (error = seenError b) then b
  else
    {| voiceError := match error with
                     | Some m => if truthy m then Some m else voiceError b
                     | None => voiceError b
                     end;
       seenError := error |}.

(** The banner's dismiss button, [setVoiceError(null)]. *)
Definition dismiss (b : Banner) : Banner :=
  {| voiceError := None; seenError := seenError b |}.

Section Buttons.

Variable getVoiceErrorMessage : jsstring -> Lang -> jsstring.

(** The microphone button's [onClick]. *)
Definition micClick (s : Hook.State) : Hook.State * list Hook.Effect :=
  if Hook.isRecording s
  then Hook.stopRecording s
  else Hook.startRecording getVoiceErrorMessage s.

(** The hook with the banner that shows its errors. *)
Inductive BannerEvent : Type :=
| Recogniser (ev : Hook.Event)
| Dismiss.

Definition bannerStep (ev : BannerEvent) (hb : Hook.State * Banner)
    : Hook.State * Banner :=
  match ev with
  | Recogniser hev =>
      let h1 := fst (Hook.handle getVoiceErrorMessage hev (fst hb)) in
      (h1, rendered (Hook.error h1) (snd hb))
  | Dismiss => (fst hb, dismiss (snd hb))
  end.

Definition bannerRun (evs : list BannerEvent) (hb : Hook.State * Banner)
    : Hook.State * Banner :=
  foldl (fun acc ev => bannerStep ev acc) hb evs.

End Buttons.

End Chat.

(* ===================================================================== *)
(** * app/chat/page: the component as a whole *)
(* ===================================================================== *)

Module Component.

(** The component: the voice path with its hook and the browser's timers,
    the chat state, what the closures of the first render read, and the
    number of [sendMessage] calls that are waiting for their reply.

    [inputMessage] is one state cell; the copy of the voice path and the
    copy of the chat are kept equal.

    The hook's mount effect has an empty dependency list: the
    [onTranscriptReady] it calls is the one of the props it closed over,
    those of the first render ([Hook.mountConfig]).  That closure calls the
    [handleVoiceTranscript] of its own render, and the timer callback that
    one arms calls the [sendMessage] of the same render, which reads the
    [inputMessage] and the [user] that render saw. *)
Record System : Type :=
  { voice : ChatPage.System;
    chat : Chat.State;
    mountRender : Chat.Render;
    inFlight : nat }.

(** What can happen to the mounted component. *)
Inductive Event : Type :=
| Voice (ev : ChatPage.Event)       (* the hook's actions and events, the
                                       language button, a timer that runs *)
| Change (value : jsstring)         (* the textarea's onChange *)
| KeyPress (e : Chat.KeyboardEvent) (* the textarea's onKeyPress *)
| SendClick                         (* the Send button's onClick *)
| Settled (o : Chat.Outcome)        (* the awaits of a sendMessage end *)
| Auth (u : option jsstring).       (* the auth context has another user *)

(** What the component does to the outside: what the voice path does, and
    the requests posted to the chat API. *)
Inductive Output : Type :=
| Did (o : ChatPage.Output)
| Posted (q : Chat.Request).

Definition isPosted (o : Output) : bool :=
  match o with
  | Posted _ => true
  | Did _ => false
  end.

(** The number of requests posted, among some outputs. *)
Definition posts (out : list Output) : nat :=
  length (List.filter isPosted out).

Definition posting (req : option Chat.Request) : list Output :=
  match req with
  | Some q => [Posted q]
  | None => []
  end.

(** The voice path seeing the current [inputMessage]. *)
Definition withInput (m : jsstring) (v : ChatPage.System) : ChatPage.System :=
  {| ChatPage.hook := ChatPage.hook v;
     ChatPage.page := ChatPage.setInputMessage m (ChatPage.page v);
     ChatPage.timers := ChatPage.timers v |}.

(** The auth context's [user]. *)
Definition setUserId (u : option jsstring) (c : Chat.State) : Chat.State :=
  {| Chat.messages := Chat.messages c; Chat.inputMessage := Chat.inputMessage c;
     Chat.isLoading := Chat.isLoading c; Chat.userId := u |}.

(** What the voice path did, with every [sendMessage()] of a timer
    callback carried out: the call is the one of the render [r] whose
    [handleVoiceTranscript] armed the timer. *)
Fixpoint timerCalls (clock : Chat.Clock) (r : Chat.Render)
    (out : list ChatPage.Output) (c : Chat.State) : Chat.State * list Output :=
  match out with
  | [] => (c, [])
  | ChatPage.SendMessage :: rest =>
      let '(c1, req) := Chat.sendMessage r clock c in
      let '(c2, out2) := timerCalls clock r rest c1 in
      (c2, Did ChatPage.SendMessage :: posting req ++ out2)
  | o :: rest =>
      let '(c2, out2) := timerCalls clock r rest c in
      (c2, Did o :: out2)
  end.

(** A key press or click that calls [sendMessage]. *)
Definition isUserSend (ev : Event) : bool :=
  match ev with
  | KeyPress e => bool_decide (Chat.key e = lit "Enter") && negb (Chat.shiftKey e)
  | SendClick => true
  | _ => false
  end.

Section Steps.

Variable getVoiceErrorMessage : jsstring -> Lang -> jsstring.

(** The first render and the mount: the [useState] initial values, the
    user the auth context has at that moment, and the closures of that
    render. *)
Definition init (supported : bool) (u : option jsstring) : System :=
  let chat0 :=
    {| Chat.messages := [];
       Chat.inputMessage := ChatPage.inputMessage ChatPage.initial;
       Chat.isLoading := false; Chat.userId := u |} in
  {| voice := ChatPage.init supported;
     chat := chat0;
     mountRender := Chat.renderOf chat0;
     inFlight := 0%nat |}.

(** The component after a handler has run: the chat state [c], the voice
    path [v] seeing its [inputMessage], and the requests of [out] in
    flight. *)
Definition commit (sys : System) (v : ChatPage.System) (c : Chat.State)
    (out : list Output) : System * list Output :=
  ({| voice := withInput (Chat.inputMessage c) v; chat := c;
      mountRender := mountRender sys;
      inFlight := (inFlight sys + posts out)%nat |}, out).

(** One step, with what the clock shows when it happens.  The textarea
    and the buttons are the ones of the latest render; a disabled control
    raises no event. *)
Definition step (clock : Chat.Clock) (ev : Event) (sys : System)
    : System * list Output :=
  match ev with
  | Voice vev =>
      let '(v1, out) := ChatPage.step getVoiceErrorMessage vev (voice sys) in
      let c1 :=
        Chat.setInputMessage (ChatPage.inputMessage (ChatPage.page v1))
                             (chat sys) in
      let '(c2, out2) := timerCalls clock (mountRender sys) out c1 in
      commit sys v1 c2 out2
  | Change value =>
      if Chat.isLoading (chat sys) then (sys, [])
      else commit sys (voice sys) (Chat.setInputMessage value (chat sys)) []
  | KeyPress e =>
      if Chat.isLoading (chat sys) then (sys, [])
      else
        let '(c1, req, _) := Chat.handleKeyPress e clock (chat sys) in
        commit sys (voice sys) c1 (posting req)
  | SendClick =>
      if Chat.sendDisabled (chat sys) then (sys, [])
      else
        let '(c1, req) :=
          Chat.sendMessage (Chat.renderOf (chat sys)) clock (chat sys) in
        commit sys (voice sys) c1 (posting req)
  | Settled o =>
      match inFlight sys with
      | O => (sys, [])
      | S n =>
          ({| voice := voice sys;
              chat := Chat.sendMessage_settled o clock (chat sys);
              mountRender := mountRender sys; inFlight := n |}, [])
      end
  | Auth u =>
      ({| voice := voice sys; chat := setUserId u (chat sys);
          mountRender := mountRender sys; inFlight := inFlight sys |}, [])
  end.

Fixpoint run (evs : list (Chat.Clock * Event)) (sys : System)
    : System * list Output :=
  match evs with
  | [] => (sys, [])
  | (clock, ev) :: rest =>
      let '(sys1, out1) := step clock ev sys in
      let '(sys2, out2) := run rest sys1 in
      (sys2, out1 ++ out2)
  end.

End Steps.

(** The key presses and clicks of a run that call [sendMessage]. *)
Definition userSends (evs : list (Chat.Clock * Event)) : nat :=
  length (List.filter (fun ce => isUserSend (snd ce)) evs).

End Component.

(* ===================================================================== *)
(** * What the theorems speak about *)
(* ===================================================================== *)

(** A code point of the Arabic block, U+0600 to U+06FF. *)
Definition inArabicBlock (cp : N) : Prop := 0x0600 <= cp <= 0x06FF.

Section Invariants.

Import Speech Hook.

(** The recogniser exists exactly when the host has the capability; it is
    not continuous, and its language tag is the one of the current props;
    the recording flag is up exactly from the recogniser's start event to
    its error or end, and the transcribing flag only then; the hook's timer
    ref is never written. *)
Definition hook_inv (s : State) : Prop :=
  timeoutRef s = None
  /\ match recognitionRef s with
     | None =>
         isSupported s = false
         /\ isRecording s = false /\ isTranscribing s = false
     | Some r =>
         isSupported s = true
         /\ continuous r = false
         /\ lang r = getLanguageCode (language (config s))
         /\ (isRecording s = true <-> phase r = Listening \/ phase r = Finalised)
         /\ (isTranscribing s = true -> phase r = Listening \/ phase r = Finalised)
     end.

End Invariants.

(** The recogniser of the hook is there and is not continuous. *)
Definition configured (s : Hook.State) : Prop :=
  exists r, Hook.recognitionRef s = Some r /\ Speech.continuous r = false.

(** The hook's recogniser is there, in a host with the capability, and
    carries the language code of the hook's current props. *)
Definition tagged (s : Hook.State) : Prop :=
  exists r, Hook.recognitionRef s = Some r
            /\ Hook.isSupported s = true
            /\ Speech.lang r
               = getLanguageCode (Speech.language (Hook.config s)).

(** What a hook shows in a host without the capability, for a given
    localizer. *)
Definition unsupported_inv (getVoiceErrorMessage : jsstring -> Lang -> jsstring)
    (s : Hook.State) : Prop :=
  Hook.isSupported s = false /\ Hook.recognitionRef s = None
  /\ Hook.isRecording s = false /\ Hook.isTranscribing s = false
  /\ Hook.transcript s = [] /\ Hook.detectedLanguage s = None
  /\ (Hook.error s = None
      \/ exists l, Hook.error s
                   = Some (getVoiceErrorMessage (lit "not-supported") l)).

(** The message an operation of the chat appends, if any. *)
Definition appended (op : Chat.Op) : list Chat.Message :=
  match op with
  | Chat.Send r clock =>
      if truthy (trim (Chat.r_inputMessage r)) && negb (Chat.noUserId r)
      then [ {| Chat.id := Chat.now clock;
                Chat.text := trim (Chat.r_inputMessage r);
                Chat.sender := Chat.FromUser;
                Chat.timestamp := Chat.iso clock |} ]
      else []
  | Chat.Settle o clock =>
      [ {| Chat.id := Chat.now clock + 1;
           Chat.text :=
             match o with
             | Chat.Responded response => response
             | Chat.Threw =>
                 lit "Sorry, I encountered an error processing your request."
             end;
           Chat.sender := Chat.FromBot;
           Chat.timestamp := Chat.iso clock |} ]
  end.

(** What holds of the component in every state it reaches: the closures
    of the first render read an empty [inputMessage], and the two copies
    of [inputMessage] agree. *)
Definition settled_inv (sys : Component.System) : Prop :=
  Chat.r_inputMessage (Component.mountRender sys) = []
  /\ ChatPage.inputMessage (ChatPage.page (Component.voice sys))
     = Chat.inputMessage (Component.chat sys).

Section TimerInvariant.

Import ChatPage.

Local Open Scope nat_scope.

(** Handles are positive and below the next one; the page's ref holds the
    handle of every armed timer. *)
Definition armed_inv (p : State) (t : Timers) : Prop :=
  1 <= nextHandle t
  /\ (forall id, timeoutRef p = Some id -> 1 <= id < nextHandle t)
  /\ (forall id x, pending t !! id = Some x -> timeoutRef p = Some id).

End TimerInvariant.

Section Samples.

Import Speech Hook.

(** The message the hook gets from the utilities modelled above. *)
Definition voiceErrorText (code : jsstring) (l : Lang) : jsstring :=
  returned (getVoiceErrorMessage code l).

Definition englishAutoDetect : VoiceRecognitionConfig :=
  {| language := en; autoDetect := Some true |}.

Definition urduAutoDetect : VoiceRecognitionConfig :=
  {| language := ur; autoDetect := Some true |}.

(** A result event with one result. *)
Definition oneResult (final : bool) (text : jsstring) : SpeechRecognitionEvent :=
  {| resultIndex := 0;
     results := [ {| isFinal := final; item0 := {| Speech.transcript := text |} |} ] |}.

(** A mounted hook in a supporting browser after [startRecording()], the
    recogniser's start event pending. *)
Definition starting : State :=
  fst (Hook.run voiceErrorText [StartRecording]
         (fst (mount true englishAutoDetect))).

(** The same hook once the recogniser has reported that the session
    started. *)
Definition listening : State :=
  fst (Hook.run voiceErrorText [StartRecording; OnStart]
         (fst (mount true englishAutoDetect))).

(** The page of a supporting browser after a final transcript of two
    blanks: the timer is armed. *)
Definition blankArmed : ChatPage.System :=
  fst (ChatPage.run voiceErrorText
         [ ChatPage.FromHook Hook.StartRecording;
           ChatPage.FromHook Hook.OnStart;
           ChatPage.FromHook (Hook.OnResult (oneResult true (lit "  "))) ]
         (ChatPage.init true)).

End Samples.

(* ===================================================================== *)
(** * The language classifier *)
(* ===================================================================== *)

Section Classifier.

Lemma urduRegex_class_spec u : urduRegex_class u = true <-> inArabicBlock u.
Proof.
  unfold urduRegex_class, inArabicBlock.
  rewrite andb_true_iff, !N.leb_le. tauto.
Qed.

Lemma containsUrdu_spec text :
  containsUrdu text = true <-> exists u, In u text /\ inArabicBlock u.
Proof.
  unfold containsUrdu. rewrite existsb_exists.
  split; intros (u & Hin & Hu); exists u; split; auto;
    now apply urduRegex_class_spec.
Qed.

(** A surrogate code unit is never in the Arabic block. *)
Lemma surrogate_not_arabic u :
  isHighSurrogate u = true \/ isLowSurrogate u = true -> ~ inArabicBlock u.
Proof.
  unfold isHighSurrogate, isLowSurrogate, inArabicBlock.
  rewrite !andb_true_iff, !N.leb_le. lia.
Qed.

(** Code units and code points agree on the Arabic block: the block lies
    in the basic plane, below the surrogates. *)
Lemma codePoints_arabic (s : jsstring) :
  (exists cp, In cp (codePoints s) /\ inArabicBlock cp)
  <-> (exists u, In u s /\ inArabicBlock u).
Proof.
  remember (length s) as n eqn:Hn.
  revert s Hn. induction n as [n IH] using lt_wf_ind. intros s Hn.
  destruct s as [|u [|l rest]]; simpl.
  - split; intros (x & [] & _).
  - reflexivity.
  - destruct (isHighSurrogate u && isLowSurrogate l) eqn:Hpair.
    + apply andb_true_iff in Hpair as [Hu Hl].
      assert (Hrec := IH (length rest) ltac:(simpl in Hn; lia) rest eq_refl).
      split.
      * intros (cp & [Hcp | Hin] & Hblock).
        -- exfalso. subst cp. unfold inArabicBlock in Hblock.
           unfold isHighSurrogate, isLowSurrogate in Hu, Hl.
           rewrite andb_true_iff, !N.leb_le in Hu, Hl. lia.
        -- destruct (proj1 Hrec (ex_intro _ cp (conj Hin Hblock)))
             as (x & Hx & Hbx).
           exists x. split; [right; right; exact Hx | exact Hbx].
      * intros (x & [Hx | [Hx | Hx]] & Hbx).
        -- subst x. destruct (surrogate_not_arabic u (or_introl Hu) Hbx).
        -- subst x. destruct (surrogate_not_arabic l (or_intror Hl) Hbx).
        -- destruct (proj2 Hrec (ex_intro _ x (conj Hx Hbx)))
             as (cp & Hcp & Hb).
           exists cp. split; [right; exact Hcp | exact Hb].
    + assert (Hrec := IH (length (l :: rest)) ltac:(simpl in Hn |- *; lia)
                         (l :: rest) eq_refl).
      split.
      * intros (cp & [Hcp | Hin] & Hblock).
        -- exists cp. split; [left; exact Hcp | exact Hblock].
        -- destruct (proj1 Hrec (ex_intro _ cp (conj Hin Hblock)))
             as (x & Hx & Hbx).
           exists x. split; [right; exact Hx | exact Hbx].
      * intros (x & [Hx | Hx] & Hbx).
        -- exists x. split; [left; exact Hx | exact Hbx].
        -- destruct (proj2 Hrec (ex_intro _ x (conj Hx Hbx)))
             as (cp & Hcp & Hb).
           exists cp. split; [right; exact Hcp | exact Hb].
Qed.

(** C3.  For every string, [detectLanguage] answers ['ur'] exactly when
    the string contains a code point in U+0600..U+06FF, and ['en']
    otherwise; the empty string is ['en']. *)
Theorem detectLanguage_iff_arabic_codepoint (s : jsstring) :
  (detectLanguage s = ur
     <-> exists cp, In cp (codePoints s) /\ 0x0600 <= cp <= 0x06FF)
  /\ (detectLanguage s = en
     <-> ~ exists cp, In cp (codePoints s) /\ 0x0600 <= cp <= 0x06FF)
  /\ detectLanguage [] = en.
Proof.
  assert (Hspec : containsUrdu s = true
                  <-> exists cp, In cp (codePoints s) /\ inArabicBlock cp).
  { rewrite codePoints_arabic. apply containsUrdu_spec. }
  unfold inArabicBlock in Hspec. unfold detectLanguage.
  split; [| split; [| reflexivity]].
  - rewrite <- Hspec. destruct (containsUrdu s); split; congruence.
  - rewrite <- Hspec. destruct (containsUrdu s); split; congruence.
Qed.

End Classifier.

(* ===================================================================== *)
(** * The error localizer *)
(* ===================================================================== *)

Section Localizer.



(** The messages object of the shipped function: any object. *)
Variable messages : gmap jsstring Localized.


End Localizer.



(* ===================================================================== *)
(** * The hook: what holds in every reachable state *)
(* ===================================================================== *)

Section HookInvariant.

Import Speech Hook.

Variable getVoiceErrorMessage : jsstring -> Lang -> jsstring.

Local Abbreviation handle := (Hook.handle getVoiceErrorMessage).
Local Abbreviation reachable := (Hook.reachable getVoiceErrorMessage).

Lemma hook_inv_mount supported c : hook_inv (fst (mount supported c)).
Proof.
  destruct supported; simpl; unfold hook_inv; simpl; intuition congruence.
Qed.

Lemma hook_inv_step ev s :
  hook_inv s -> enabled ev s = true -> hook_inv (fst (handle ev s)).
Proof.
  intros (Htimer & Hinv) Hen.
  destruct s as [sup cfg mcfg rec trn txt err det ref tmr].
  simpl in Htimer, Hinv. subst tmr.
  destruct ref as [[cont intr maxalt tag ph]|]; simpl in Hinv.
  - destruct Hinv as (Hsup & Hcont & Htag & Hrec & Htrn). subst sup cont tag.
    destruct ev as [| | |c| |event| |]; simpl in Hen |- *.
    + (* startRecording *)
      unfold startRecording, start; simpl.
      destruct ph; simpl; unfold hook_inv; simpl;
        intuition (try congruence; try discriminate).
    + unfold hook_inv; simpl. intuition congruence.
    + unfold hook_inv; simpl. intuition congruence.
    + unfold rerender; simpl. case_decide as Hl; simpl.
      * unfold hook_inv; simpl. rewrite Hl. intuition congruence.
      * unfold hook_inv; simpl. intuition congruence.
    + unfold hook_inv; simpl. intuition congruence.
    + apply bool_decide_eq_true in Hen. subst ph.
      unfold onresult; simpl.
      destruct (bringsFinal event), (truthy (finalTranscript event));
        unfold hook_inv; simpl; intuition (try congruence; try discriminate).
    + unfold hook_inv; simpl. intuition (try congruence; try discriminate).
    + unfold hook_inv; simpl. intuition (try congruence; try discriminate).
  - destruct Hinv as (Hsup & Hrec & Htrn). subst sup rec trn.
    destruct ev as [| | |c| |event| |]; simpl in Hen |- *;
      try discriminate; unfold hook_inv; simpl; auto.
    unfold rerender; simpl. case_decide; simpl; auto.
Qed.

Lemma reachable_inv supported c s : reachable supported c s -> hook_inv s.
Proof.
  induction 1 as [|s ev Hreach IH Hen].
  - apply hook_inv_mount.
  - now apply hook_inv_step.
Qed.

(** The clean-up at unmount has no timer to clear: nothing in the hook
    ever arms one. *)
Lemma unmount_clears_no_timer supported c s id :
  reachable supported c s -> ~ In (ClearTimeout id) (snd (unmount s)).
Proof.
  intros Hreach. apply reachable_inv in Hreach as (Htimer & _).
  unfold unmount. rewrite Htimer.
  destruct (recognitionRef s) as [r|]; [destruct (isSupported s)|]; simpl;
    intuition discriminate.
Qed.

End HookInvariant.

Section SampleStates.

Import Speech Hook.

Lemma starting_reachable :
  Hook.reachable voiceErrorText true englishAutoDetect starting.
Proof.
  exact (reachable_step voiceErrorText true englishAutoDetect _ StartRecording
           (reachable_mount voiceErrorText true englishAutoDetect) eq_refl).
Qed.

Lemma listening_reachable :
  Hook.reachable voiceErrorText true englishAutoDetect listening.
Proof.
  exact (reachable_step voiceErrorText true englishAutoDetect _ OnStart
           starting_reachable eq_refl).
Qed.

End SampleStates.

(* ===================================================================== *)
(** * The hook: recording and transcribing *)
(* ===================================================================== *)


Section Flags.

Import Speech Hook.

Variable getVoiceErrorMessage : jsstring -> Lang -> jsstring.

Local Abbreviation handle := (Hook.handle getVoiceErrorMessage).
Local Abbreviation reachable := (Hook.reachable getVoiceErrorMessage).



End Flags.


(* ===================================================================== *)
(** * The hook: starting a session *)
(* ===================================================================== *)

Section Start.

Import Speech Hook.

Variable getVoiceErrorMessage : jsstring -> Lang -> jsstring.

Local Abbreviation handle := (Hook.handle getVoiceErrorMessage).
Local Abbreviation run := (Hook.run getVoiceErrorMessage).
Local Abbreviation reachable := (Hook.reachable getVoiceErrorMessage).

(** Without an instance and without the capability, a step changes
    neither, and has no effect outside. *)
Lemma unsupported_step ev s :
  isSupported s = false -> recognitionRef s = None ->
  isSupported (fst (handle ev s)) = false
  /\ recognitionRef (fst (handle ev s)) = None
  /\ snd (handle ev s) = [].
Proof.
  intros Hsup Href.
  destruct ev as [| | |c| |event| |]; simpl;
    unfold startRecording, stopRecording, rerender, languageEffect;
    simpl; rewrite ?Hsup, ?Href; simpl; auto.
  case_decide; simpl; rewrite ?Href; auto.
Qed.

Lemma unsupported_run evs s :
  isSupported s = false -> recognitionRef s = None ->
  isSupported (fst (run evs s)) = false
  /\ recognitionRef (fst (run evs s)) = None
  /\ snd (run evs s) = [].
Proof.
  revert s. induction evs as [|ev rest IH]; intros s Hsup Href; simpl.
  - auto.
  - destruct (unsupported_step ev s Hsup Href) as (Hs1 & Hr1 & Ho1).
    destruct (handle ev s) as [s1 out1]; simpl in *.
    specialize (IH s1 Hs1 Hr1).
    destruct (run rest s1) as [s2 out2]; simpl in *.
    destruct IH as (? & ? & ->). subst out1. auto.
Qed.

(** C5.  In a host without the capability, mounting constructs nothing;
    whatever happens afterwards, no recogniser is ever constructed or
    started, and [startRecording()] leaves the hook with [error] holding
    the not-supported message in the language of the current props; it
    does nothing else: no effect outside, no recogniser, and the flags,
    the transcript and the detected language as they were. *)
Theorem unsupported_start_reports_and_opens_nothing
    (c : VoiceRecognitionConfig) (evs : list Event) :
  let s := fst (run evs (fst (mount false c))) in
  let out := snd (mount false c) ++ snd (run evs (fst (mount false c))) in
  let s' := fst (handle StartRecording s) in
  isSupported s = false
  /\ recognitionRef s = None
  /\ Forall (fun e => opensHandle e = false) out
  /\ error s' = Some (getVoiceErrorMessage (lit "not-supported")
                                           (language (config s)))
  /\ snd (handle StartRecording s) = []
  /\ recognitionRef s' = None
  /\ isSupported s' = false
  /\ isRecording s' = isRecording s
  /\ isTranscribing s' = isTranscribing s
  /\ transcript s' = transcript s
  /\ detectedLanguage s' = detectedLanguage s.
Proof.
  destruct (unsupported_run evs (fst (mount false c)) eq_refl eq_refl)
    as (Hsup & Href & Hout).
  cbv zeta. rewrite Hout.
  set (s := fst (run evs (fst (mount false c)))) in *.
  split; [exact Hsup|]. split; [exact Href|]. split; [constructor|].
  cbn [handle]. unfold startRecording. rewrite Hsup.
  cbn [negb fst snd error setError recognitionRef isSupported isRecording
       isTranscribing transcript detectedLanguage].
  repeat split; assumption.
Qed.

(** [onstart] clears the error and raises both flags; it does not touch
    the transcript. *)
Lemma onstart_fields s r :
  recognitionRef s = Some r ->
  error (fst (handle OnStart s)) = None
  /\ transcript (fst (handle OnStart s)) = transcript s
  /\ detectedLanguage (fst (handle OnStart s)) = detectedLanguage s.
Proof. intros Href. simpl. rewrite Href. simpl. auto. Qed.

(** [startRecording()] writes neither the transcript nor, when the start
    is accepted, the error. *)
Lemma startRecording_transcript s :
  transcript (fst (handle StartRecording s)) = transcript s.
Proof.
  simpl. unfold startRecording.
  destruct (isSupported s); simpl; [|reflexivity].
  destruct (recognitionRef s) as [r|]; simpl; [|reflexivity].
  destruct (start _); reflexivity.
Qed.

(** C7, amended.  While a session is active, [startRecording()] constructs
    and starts nothing, and leaves [isRecording], [isTranscribing],
    [transcript], [detectedLanguage] and the recogniser as they are; but
    the browser rejects the second start, and the hook reports that by
    setting [error] to the not-allowed message. *)
Theorem start_while_active_sets_error supported c s :
  reachable supported c s ->
  isRecording s || isTranscribing s = true ->
  snd (handle StartRecording s) = [ConsoleError]
  /\ isRecording (fst (handle StartRecording s)) = isRecording s
  /\ isTranscribing (fst (handle StartRecording s)) = isTranscribing s
  /\ transcript (fst (handle StartRecording s)) = transcript s
  /\ detectedLanguage (fst (handle StartRecording s)) = detectedLanguage s
  /\ recognitionRef (fst (handle StartRecording s)) = recognitionRef s
  /\ error (fst (handle StartRecording s))
     = Some (getVoiceErrorMessage (lit "not-allowed") (language (config s))).
Proof.
  intros Hreach Hactive. apply reachable_inv in Hreach as (_ & Hinv).
  destruct (recognitionRef s) as [r|] eqn:Href.
  - destruct Hinv as (Hsup & _ & Htag & Hrec & Htrn).
    assert (Hph : phase r = Listening \/ phase r = Finalised).
    { apply orb_true_iff in Hactive as [H|H]; [apply Hrec, H | apply Htrn, H]. }
    simpl. unfold startRecording. rewrite Hsup, Href. simpl.
    unfold start. simpl.
    destruct Hph as [Hph|Hph]; rewrite Hph; simpl;
      (repeat split; auto; f_equal; destruct r; simpl in *; now subst).
  - destruct Hinv as (_ & Hrec & Htrn). rewrite Hrec, Htrn in Hactive.
    discriminate.
Qed.

End Start.

(** A page in a browser without the capability: the language is switched
    to Urdu, then the microphone action is called twice. *)
Lemma unsupported_start_reports_and_opens_nothing_witness :
  let evs := [ Hook.Rerender urduAutoDetect; Hook.StartRecording;
               Hook.OnStart; Hook.ResetTranscript ] in
  let s := fst (Hook.run voiceErrorText evs
                  (fst (Hook.mount false englishAutoDetect))) in
  Hook.error s = None
  /\ Hook.error (fst (Hook.handle voiceErrorText Hook.StartRecording s))
     = Some (voiceErrorText (lit "not-supported") ur)
  /\ snd (Hook.handle voiceErrorText Hook.StartRecording s) = []
  /\ Hook.recognitionRef
       (fst (Hook.handle voiceErrorText Hook.StartRecording s)) = None.
Proof.
  cbv zeta.
  pose proof (unsupported_start_reports_and_opens_nothing voiceErrorText
                englishAutoDetect
                [ Hook.Rerender urduAutoDetect; Hook.StartRecording;
                  Hook.OnStart; Hook.ResetTranscript ])
    as (_ & _ & _ & Herr & Hout & Href & _).
  cbv zeta in Herr, Hout, Href.
  split; [reflexivity|]. split; [exact Herr|]. split; [exact Hout|exact Href].
Defined.

(** C7, as stated, fails: a second [startRecording()] during a session
    changes the error from [null] to a message. *)
Lemma start_while_active_counterexample :
  Hook.reachable voiceErrorText true englishAutoDetect listening
  /\ Hook.isRecording listening = true
  /\ Hook.error listening = None
  /\ Hook.error (fst (Hook.handle voiceErrorText Hook.StartRecording listening))
     = Some (lit "Microphone access denied. Please allow microphone permissions.").
Proof.
  split; [exact listening_reachable|]. repeat split; reflexivity.
Qed.

(** A second [startRecording()] while the hook listens. *)
Lemma start_while_active_sets_error_witness :
  Hook.isRecording listening || Hook.isTranscribing listening = true
  /\ snd (Hook.handle voiceErrorText Hook.StartRecording listening)
     = [Hook.ConsoleError]
  /\ Hook.recognitionRef
       (fst (Hook.handle voiceErrorText Hook.StartRecording listening))
     = Hook.recognitionRef listening.
Proof.
  pose proof (start_while_active_sets_error voiceErrorText true
                englishAutoDetect listening listening_reachable eq_refl)
    as (Hout & _ & _ & _ & _ & Href & _).
  split; [reflexivity|]. split; [exact Hout | exact Href].
Defined.

(** C6: the code at the failing input.  A session ends with the transcript
    "show my tasks"; the next [startRecording()] is accepted and the
    recogniser reports the start; the error is [null], but the transcript
    of the previous session is still there. *)
Lemma start_keeps_previous_transcript :
  let s := fst (Hook.run voiceErrorText
                  [Hook.OnResult (oneResult true (lit "show my tasks"));
                   Hook.OnEnd; Hook.StartRecording; Hook.OnStart] listening) in
  Hook.isRecording s = true
  /\ Hook.error s = None
  /\ Hook.transcript s = lit "show my tasks"
  /\ Hook.transcript s <> [].
Proof. repeat split; try reflexivity. discriminate. Qed.

(* ===================================================================== *)
(** * The hook: the language of the recogniser *)
(* ===================================================================== *)

Section LanguageTag.

Import Speech Hook.

Variable getVoiceErrorMessage : jsstring -> Lang -> jsstring.

Local Abbreviation handle := (Hook.handle getVoiceErrorMessage).
Local Abbreviation reachable := (Hook.reachable getVoiceErrorMessage).

(** C8, amended.  A render with another [config.language] writes the new
    language tag into the existing recogniser at once, whatever phase it
    is in, an active session included; the phase of the recogniser and the
    hook's flags, transcript, error and detected language stay as they
    are.  (The next [startRecording()] writes the same tag again.) *)
Theorem language_change_retags_open_handle supported c0 s r c :
  reachable supported c0 s ->
  recognitionRef s = Some r ->
  language c <> language (config s) ->
  let s' := fst (handle (Rerender c) s) in
  recognitionRef s' = Some (with_lang (getLanguageCode (language c)) r)
  /\ (forall r', recognitionRef s' = Some r' -> phase r' = phase r)
  /\ isRecording s' = isRecording s
  /\ isTranscribing s' = isTranscribing s
  /\ transcript s' = transcript s
  /\ error s' = error s
  /\ detectedLanguage s' = detectedLanguage s.
Proof.
  intros Hreach Href Hlang. apply reachable_inv in Hreach as (_ & Hinv).
  rewrite Href in Hinv. destruct Hinv as (Hsup & _).
  cbv zeta. simpl. unfold rerender. case_decide as Heq; [contradiction|].
  unfold languageEffect. simpl. rewrite Href, Hsup. simpl.
  repeat split; auto.
  intros r' [= <-]. reflexivity.
Qed.

End LanguageTag.

(** C8, as stated, fails: the session is active and the recogniser is
    tagged en-US; the display language changes to Urdu; the recogniser of
    the active session is now tagged ur-PK. *)
Lemma language_change_counterexample :
  Hook.reachable voiceErrorText true englishAutoDetect listening
  /\ Hook.isRecording listening = true
  /\ (Speech.lang <$> Hook.recognitionRef listening) = Some (lit "en-US")
  /\ (Speech.lang <$> Hook.recognitionRef
               (fst (Hook.handle voiceErrorText (Hook.Rerender urduAutoDetect)
                       listening)))
     = Some (lit "ur-PK")
  /\ (Speech.phase <$> Hook.recognitionRef
                (fst (Hook.handle voiceErrorText (Hook.Rerender urduAutoDetect)
                        listening)))
     = Some Speech.Listening.
Proof.
  split; [exact listening_reachable|]. repeat split; reflexivity.
Qed.

(** The display language changes to Urdu while the hook listens. *)
Lemma language_change_retags_open_handle_witness :
  Hook.recognitionRef listening
  = Some {| Speech.continuous := false; Speech.interimResults := true;
            Speech.maxAlternatives := 1;
            Speech.lang := lit "en-US"; Speech.phase := Speech.Listening |}
  /\ Speech.language urduAutoDetect <> Speech.language (Hook.config listening)
  /\ Hook.recognitionRef
       (fst (Hook.handle voiceErrorText (Hook.Rerender urduAutoDetect) listening))
     = Some {| Speech.continuous := false; Speech.interimResults := true;
            Speech.maxAlternatives := 1;
               Speech.lang := lit "ur-PK"; Speech.phase := Speech.Listening |}.
Proof.
  assert (Hne : Speech.language urduAutoDetect <> Speech.language (Hook.config listening))
    by discriminate.
  pose proof (language_change_retags_open_handle voiceErrorText true
                englishAutoDetect listening _ urduAutoDetect
                listening_reachable eq_refl Hne) as (Href & _).
  split; [reflexivity|]. split; [exact Hne | exact Href].
Defined.

(* ===================================================================== *)
(** * The hook: result events *)
(* ===================================================================== *)

Section Results.

Import Speech Hook.

Variable getVoiceErrorMessage : jsstring -> Lang -> jsstring.

Local Abbreviation handle := (Hook.handle getVoiceErrorMessage).

Lemma truthy_nil (t : jsstring) : truthy t = false <-> t = [].
Proof. destruct t; simpl; split; congruence. Qed.

(** What [onresult] hands to the callback: the final text, once, when
    there is some; nothing otherwise. *)
Lemma onresult_effects event s :
  snd (onresult event s)
  = if truthy (finalTranscript event)
    then [TranscriptReady (finalTranscript event)
            (if autoDetect_enabled (mountConfig s)
             then Some (detectLanguage (finalTranscript event)) else None)]
    else [].
Proof.
  unfold onresult. destruct (truthy (finalTranscript event)); reflexivity.
Qed.

(** C10.  A result event whose final text is empty calls nothing, leaves
    [isTranscribing] true and shows the interim text; and whenever a
    result event does call [onTranscriptReady], its final text is not
    empty (and is what the callback receives). *)
Theorem empty_final_result_stays_transcribing s r event :
  recognitionRef s = Some r ->
  (finalTranscript event = [] ->
     snd (handle (OnResult event) s) = []
     /\ isTranscribing (fst (handle (OnResult event) s)) = true
     /\ transcript (fst (handle (OnResult event) s)) = interimTranscript event)
  /\ (forall text detected,
        In (TranscriptReady text detected) (snd (handle (OnResult event) s)) ->
        text = finalTranscript event /\ text <> []).
Proof.
  intros Href. simpl. rewrite Href. split.
  - intros Hfinal. unfold onresult. rewrite Hfinal. simpl.
    unfold or_else. simpl. auto.
  - intros text detected. rewrite onresult_effects.
    destruct (truthy (finalTranscript event)) eqn:Ht.
    + intros [[= <- _]|[]]. split; [reflexivity|].
      intros Hnil. rewrite Hnil in Ht. discriminate.
    + intros [].
Qed.

End Results.

(** An interim result, "show", while the hook listens. *)
Lemma empty_final_result_stays_transcribing_witness :
  Hook.finalTranscript (oneResult false (lit "show")) = []
  /\ snd (Hook.handle voiceErrorText
            (Hook.OnResult (oneResult false (lit "show"))) listening) = []
  /\ Hook.isTranscribing
       (fst (Hook.handle voiceErrorText
               (Hook.OnResult (oneResult false (lit "show"))) listening)) = true
  /\ Hook.transcript
       (fst (Hook.handle voiceErrorText
               (Hook.OnResult (oneResult false (lit "show"))) listening))
     = lit "show".
Proof.
  pose proof (empty_final_result_stays_transcribing voiceErrorText listening _
                (oneResult false (lit "show")) eq_refl) as [H _].
  split; [reflexivity|]. exact (H eq_refl).
Defined.

(* ===================================================================== *)
(** * The chat page: the auto-send timer *)
(* ===================================================================== *)

Section AutoSend.

Import ChatPage.

Local Open Scope nat_scope.

Variable getVoiceErrorMessage : jsstring -> Lang -> jsstring.

Local Abbreviation step := (ChatPage.step getVoiceErrorMessage).
Local Abbreviation run := (ChatPage.run getVoiceErrorMessage).

Lemma size_at_most_one (m : gmap nat jsstring) (k : nat) :
  (forall id x, m !! id = Some x -> id = k) -> size m <= 1.
Proof.
  intros Hkeys. destruct (m !! k) as [x|] eqn:Hk.
  - assert (m = {[ k := x ]}) as ->.
    { apply map_eq. intros i. destruct (decide (i = k)) as [->|Hne].
      - now rewrite lookup_singleton_eq.
      - rewrite lookup_singleton_ne by congruence.
        destruct (m !! i) as [y|] eqn:Hi; [|reflexivity].
        apply Hkeys in Hi. contradiction. }
    now rewrite map_size_singleton.
  - assert (m = ∅) as ->.
    { apply map_empty. intros i.
      destruct (m !! i) as [y|] eqn:Hi; [|reflexivity].
      pose proof (Hkeys _ _ Hi). subst i. congruence. }
    rewrite map_size_empty. lia.
Qed.

Lemma armed_inv_size p t : armed_inv p t -> size (pending t) <= 1.
Proof.
  intros (_ & _ & Hpend). destruct (timeoutRef p) as [k|] eqn:Href.
  - apply (size_at_most_one _ k). intros id x Hx.
    apply Hpend in Hx. congruence.
  - apply (size_at_most_one _ 0). intros id x Hx.
    apply Hpend in Hx. congruence.
Qed.

(** Rearming: whatever was armed is cancelled first, so afterwards exactly
    the new timer is armed, and the ref holds its handle. *)
Lemma handleVoiceTranscript_rearms text p t :
  armed_inv p t ->
  let p' := fst (handleVoiceTranscript text (p, t)) in
  let t' := snd (handleVoiceTranscript text (p, t)) in
  armed_inv p' t'
  /\ timeoutRef p' = Some (nextHandle t)
  /\ pending t' = {[ nextHandle t := text ]}
  /\ language p' = language p.
Proof.
  intros (Hnext & Href & Hpend). cbv zeta.
  assert (Hcleared :
    pending (match armedHandle (timeoutRef p) with
             | Some id => clearTimeout id t
             | None => t
             end) = ∅
    /\ nextHandle (match armedHandle (timeoutRef p) with
                   | Some id => clearTimeout id t
                   | None => t
                   end) = nextHandle t).
  { destruct (timeoutRef p) as [id|] eqn:Hr.
    - destruct (Href id eq_refl) as [Hpos _].
      destruct id as [|n]; [lia|]. simpl. split; [|reflexivity].
      apply map_empty. intros i. destruct (decide (i = S n)) as [->|Hne].
      + apply lookup_delete_eq.
      + rewrite lookup_delete_ne by congruence.
        destruct (pending t !! i) as [y|] eqn:Hi; [|reflexivity].
        apply Hpend in Hi. congruence.
    - simpl. split; [|reflexivity].
      apply map_empty. intros i.
      destruct (pending t !! i) as [y|] eqn:Hi; [|reflexivity].
      apply Hpend in Hi. congruence. }
  unfold handleVoiceTranscript. simpl.
  destruct Hcleared as [Hempty Hsame].
  destruct (match armedHandle (timeoutRef p) with
            | Some id => clearTimeout id t
            | None => t
            end) as [pend nxt]; simpl in *. subst pend nxt.
  split; [|split; [reflexivity | split; [apply insert_empty | reflexivity]]].
  split; [simpl; lia|]. split; simpl.
  - intros id [= <-]. lia.
  - intros id x Hx. rewrite insert_empty in Hx.
    apply lookup_singleton_Some in Hx as [<- _]. reflexivity.
Qed.

Lemma onTranscriptReady_rearms text detected p t :
  armed_inv p t ->
  let p' := fst (onTranscriptReady text detected (p, t)) in
  let t' := snd (onTranscriptReady text detected (p, t)) in
  armed_inv p' t'
  /\ timeoutRef p' = Some (nextHandle t)
  /\ pending t' = {[ nextHandle t := text ]}.
Proof.
  intros Hinv. cbv zeta. unfold onTranscriptReady.
  set (p2 := match detected with
             | Some d =>
                 if decide (d = language initial)
                 then setInputMessage text p
                 else setLanguage d (setInputMessage text p)
             | None => setInputMessage text p
             end).
  assert (Hinv2 : armed_inv p2 t).
  { assert (timeoutRef p2 = timeoutRef p) as Heq.
    { unfold p2. destruct detected as [d|]; [case_decide|]; reflexivity. }
    unfold armed_inv. rewrite Heq. exact Hinv. }
  destruct (handleVoiceTranscript_rearms text p2 t Hinv2) as (H1 & H2 & H3 & _).
  auto.
Qed.

End AutoSend.

Section Dispatch.

Import ChatPage.

Local Open Scope nat_scope.

Variable getVoiceErrorMessage : jsstring -> Lang -> jsstring.

Local Abbreviation step := (ChatPage.step getVoiceErrorMessage).
Local Abbreviation run := (ChatPage.run getVoiceErrorMessage).

(** What one step of the hook hands to the page: the final text of a
    result event, once; nothing in every other case. *)
Lemma handle_ready_calls hev s r :
  Hook.recognitionRef s = Some r ->
  Hook.transcriptReadyCalls (snd (Hook.handle getVoiceErrorMessage hev s))
  = match hev with
    | Hook.OnResult event =>
        if truthy (Hook.finalTranscript event)
        then [(Hook.finalTranscript event,
               if Hook.autoDetect_enabled (Hook.mountConfig s)
               then Some (detectLanguage (Hook.finalTranscript event))
               else None)]
        else []
    | _ => []
    end.
Proof.
  intros Href.
  destruct hev as [| | |c| |event| |]; cbn [Hook.handle];
    unfold Hook.startRecording, Hook.stopRecording; rewrite ?Href;
    try reflexivity.
  - destruct (Hook.isSupported s); simpl; [|reflexivity].
    destruct (Speech.start _); reflexivity.
  - cbn [snd]. rewrite onresult_effects. cbn [Hook.mountConfig Hook.setRecognitionRef].
    destruct (truthy (Hook.finalTranscript event)); reflexivity.
Qed.

(** The recogniser, once constructed, stays for as long as the hook is
    mounted. *)
Lemma handle_keeps_instance hev s :
  is_Some (Hook.recognitionRef s) ->
  is_Some (Hook.recognitionRef (fst (Hook.handle getVoiceErrorMessage hev s))).
Proof.
  intros [r Href].
  destruct hev as [| | |c| |event| |]; cbn [Hook.handle];
    unfold Hook.startRecording, Hook.stopRecording; rewrite ?Href;
    cbn [fst]; try (simpl; eauto; fail).
  - destruct (Hook.isSupported s); simpl; [|rewrite Href; eauto].
    destruct (Speech.start _); simpl; eauto.
  - unfold Hook.rerender. case_decide; simpl; [rewrite Href; eauto|].
    unfold Hook.languageEffect. simpl. rewrite Href.
    destruct (Hook.isSupported s); simpl; [|rewrite Href]; eauto.
  - unfold Hook.onresult.
    destruct (truthy (Hook.finalTranscript event)); simpl; eauto.
Qed.

Lemma rerender_keeps_instance c s :
  is_Some (Hook.recognitionRef s) ->
  is_Some (Hook.recognitionRef (Hook.rerender c s)).
Proof.
  intros [r Href]. unfold Hook.rerender.
  case_decide; simpl; [rewrite Href; eauto|].
  unfold Hook.languageEffect. simpl. rewrite Href.
  destruct (Hook.isSupported s); simpl; [|rewrite Href]; eauto.
Qed.

(** The page's reaction, by the calls it receives. *)
Lemma deliver_calls out pt :
  deliver out pt
  = foldl (fun acc call => onTranscriptReady (fst call) (snd call) acc) pt
          (Hook.transcriptReadyCalls out).
Proof.
  revert pt. induction out as [|e rest IH]; intros pt; [reflexivity|].
  destruct e; simpl; apply IH.
Qed.

Lemma readyCalls_voice out :
  readyCalls (map Voice out) = length (Hook.transcriptReadyCalls out).
Proof.
  unfold readyCalls. induction out as [|e rest IH]; [reflexivity|].
  destruct e; simpl; rewrite <- ?IH; reflexivity.
Qed.

Lemma dispatches_voice out : dispatches (map Voice out) = 0.
Proof.
  unfold dispatches. induction out as [|e rest IH]; [reflexivity|].
  simpl. exact IH.
Qed.

(** One step: the invariant of the timers is kept, a call of
    [onTranscriptReady] happens exactly on a result event with final text,
    and every dispatch uses up an armed timer, which only such a call can
    have armed. *)
Lemma step_accounts ev sys :
  armed_inv (page sys) (timers sys) ->
  is_Some (Hook.recognitionRef (hook sys)) ->
  let sys' := fst (step ev sys) in
  let out := snd (step ev sys) in
  armed_inv (page sys') (timers sys')
  /\ is_Some (Hook.recognitionRef (hook sys'))
  /\ readyCalls out = (if carriesFinal ev then 1 else 0)
  /\ dispatches out + size (pending (timers sys'))
     <= readyCalls out + size (pending (timers sys)).
Proof.
  intros Hinv Hinst. cbv zeta.
  destruct ev as [hev| |id]; unfold ChatPage.step.
  - destruct Hinst as [r Href].
    pose proof (handle_ready_calls hev (hook sys) r Href) as Hcalls.
    pose proof (handle_keeps_instance hev (hook sys) (ex_intro _ r Href))
      as Hkeep.
    destruct (Hook.handle getVoiceErrorMessage hev (hook sys)) as [h1 out].
    cbn [fst snd] in Hcalls, Hkeep.
    rewrite deliver_calls.
    assert (Hcases :
      (carriesFinal (FromHook hev) = false
       /\ Hook.transcriptReadyCalls out = [])
      \/ (carriesFinal (FromHook hev) = true
          /\ exists text detected,
               Hook.transcriptReadyCalls out = [(text, detected)])).
    { rewrite Hcalls. destruct hev as [| | |c| |event| |]; simpl; auto.
      destruct (truthy (Hook.finalTranscript event)); eauto. }
    clear Hcalls.
    destruct Hcases as [[Hfin Hnil] | [Hfin (text & detected & Hone)]].
    + rewrite Hnil, Hfin. cbn [foldl fst snd hook page timers].
      rewrite readyCalls_voice, dispatches_voice, Hnil.
      split; [exact Hinv|]. split; [now apply rerender_keeps_instance|].
      split; [reflexivity | simpl; lia].
    + rewrite Hone, Hfin. cbn [foldl fst snd].
      destruct (onTranscriptReady_rearms text detected _ _ Hinv)
        as (Hinv' & _ & Hpend).
      destruct (onTranscriptReady text detected (page sys, timers sys))
        as [p1 t1]. cbn [fst snd hook page timers] in *.
      rewrite readyCalls_voice, dispatches_voice, Hone.
      split; [exact Hinv'|]. split; [now apply rerender_keeps_instance|].
      split; [reflexivity|]. rewrite Hpend, map_size_singleton. simpl. lia.
  - cbn [fst snd hook page timers carriesFinal].
    split; [|split; [now apply rerender_keeps_instance | split; [reflexivity | simpl; lia]]].
    destruct Hinv as (H1 & H2 & H3). repeat split; simpl; auto; apply H2; auto.
  - destruct (pending (timers sys) !! id) as [text|] eqn:Hid;
      cbn [fst snd hook page timers carriesFinal].
    + split.
      { destruct Hinv as (H1 & H2 & H3). split; [exact H1|]. split; [exact H2|].
        intros id' x Hx. simpl in Hx.
        apply lookup_delete_Some in Hx as [_ Hx]. eapply H3, Hx. }
      split; [exact Hinst|].
      cbn [clearTimeout pending]. rewrite map_size_delete, Hid. simpl.
      assert (0 < size (pending (timers sys))).
      { destruct (decide (size (pending (timers sys)) = 0)) as [Hz|]; [|lia].
        apply map_size_empty_inv in Hz. rewrite Hz in Hid.
        rewrite lookup_empty in Hid. discriminate. }
      destruct (truthy (trim text)); simpl; split; try reflexivity;
        unfold dispatches, readyCalls; simpl; lia.
    + split; [exact Hinv|]. split; [exact Hinst|].
      split; [reflexivity|]. unfold dispatches, readyCalls; simpl. lia.
Qed.

Lemma readyCalls_app out1 out2 :
  readyCalls (out1 ++ out2) = readyCalls out1 + readyCalls out2.
Proof. unfold readyCalls. now rewrite List.filter_app, length_app. Qed.

Lemma dispatches_app out1 out2 :
  dispatches (out1 ++ out2) = dispatches out1 + dispatches out2.
Proof. unfold dispatches. now rewrite List.filter_app, length_app. Qed.

Lemma run_accounts evs sys :
  armed_inv (page sys) (timers sys) ->
  is_Some (Hook.recognitionRef (hook sys)) ->
  let sys' := fst (run evs sys) in
  let out := snd (run evs sys) in
  armed_inv (page sys') (timers sys')
  /\ is_Some (Hook.recognitionRef (hook sys'))
  /\ readyCalls out = length (List.filter carriesFinal evs)
  /\ dispatches out + size (pending (timers sys'))
     <= readyCalls out + size (pending (timers sys)).
Proof.
  revert sys. induction evs as [|ev rest IH]; intros sys Hinv Hinst; cbv zeta.
  - simpl. split; [exact Hinv|]. split; [exact Hinst|].
    split; [reflexivity | lia].
  - cbn [ChatPage.run List.filter].
    destruct (step_accounts ev sys Hinv Hinst) as (Hinv1 & Hinst1 & Hr1 & Hd1).
    destruct (step ev sys) as [sys1 out1]. cbn [fst snd] in *.
    destruct (IH sys1 Hinv1 Hinst1) as (Hinv2 & Hinst2 & Hr2 & Hd2).
    destruct (run rest sys1) as [sys2 out2]. cbn [fst snd] in *.
    rewrite readyCalls_app, dispatches_app.
    split; [exact Hinv2|]. split; [exact Hinst2|].
    rewrite Hr1, Hr2 in *.
    destruct (carriesFinal ev); cbn [length]; split; lia.
Qed.

(** Only final results contribute to the final text. *)
Lemma collect_without_final rs interim final :
  existsb Speech.isFinal rs = false ->
  snd (Hook.collect rs interim final) = final.
Proof.
  revert interim final. induction rs as [|result rest IH]; intros interim final;
    simpl; [reflexivity|].
  destruct (Speech.isFinal result); simpl; [discriminate|]. apply IH.
Qed.

Lemma finalTranscript_bringsFinal event :
  truthy (Hook.finalTranscript event) = true -> Hook.bringsFinal event = true.
Proof.
  unfold Hook.finalTranscript, Hook.bringsFinal. intros Htext.
  destruct (existsb Speech.isFinal
              (drop (Speech.resultIndex event) (Speech.results event))) eqn:Hex;
    [reflexivity|].
  rewrite (collect_without_final _ [] [] Hex) in Htext. discriminate.
Qed.

Lemma rerender_configured c s : configured s -> configured (Hook.rerender c s).
Proof.
  intros (r & Href & Hcont). unfold Hook.rerender.
  case_decide; [exists r; simpl; auto|].
  unfold Hook.languageEffect. simpl. rewrite Href.
  destruct (Hook.isSupported s); simpl; [|exists r; simpl; auto].
  eexists. split; [reflexivity | exact Hcont].
Qed.

Lemma rerender_awaitingResult c s :
  Hook.awaitingResult (Hook.rerender c s) = Hook.awaitingResult s.
Proof.
  unfold Hook.rerender, Hook.awaitingResult.
  case_decide; [reflexivity|].
  unfold Hook.languageEffect. simpl.
  destruct (Hook.recognitionRef s) as [r|] eqn:Href; simpl; [|now rewrite Href].
  destruct (Hook.isSupported s); simpl; [reflexivity | now rewrite Href].
Qed.

Lemma sessions_app out1 out2 :
  sessions (out1 ++ out2) = sessions out1 + sessions out2.
Proof. unfold sessions. now rewrite List.filter_app, length_app. Qed.

(** One step of the hook under the protocol: a call of [onTranscriptReady]
    uses up the open session, and only an accepted start opens one. *)
Lemma handle_session_account hev s :
  configured s ->
  Hook.enabled hev s = true ->
  configured (fst (Hook.handle getVoiceErrorMessage hev s))
  /\ readyCalls (map Voice (snd (Hook.handle getVoiceErrorMessage hev s)))
     + Nat.b2n (Hook.awaitingResult (fst (Hook.handle getVoiceErrorMessage hev s)))
     <= sessions (map Voice (snd (Hook.handle getVoiceErrorMessage hev s)))
        + Nat.b2n (Hook.awaitingResult s).
Proof.
  intros (r & Href & Hcont) Hen.
  destruct s as [sup cfg mcfg rec trn txt err det ref tmr].
  simpl in Href. subst ref.
  destruct r as [cont intr maxalt tag ph]. simpl in Hcont. subst cont.
  unfold configured, Hook.awaitingResult.
  destruct hev as [| | |c| |event| |]; simpl in Hen |- *.
  - unfold Hook.startRecording, Speech.start; simpl.
    destruct sup; simpl; [|split; [eauto | lia]].
    destruct ph; simpl; (split; [eauto | unfold readyCalls, sessions; simpl; lia]).
  - split; [eauto | unfold readyCalls, sessions; simpl; lia].
  - split; [eauto | unfold readyCalls, sessions; simpl; lia].
  - unfold Hook.rerender; simpl. case_decide; simpl.
    + split; [eauto | unfold readyCalls, sessions; simpl; lia].
    + destruct sup; simpl;
        (split; [eauto | unfold readyCalls, sessions; simpl; lia]).
  - apply bool_decide_eq_true in Hen. subst ph.
    split; [eauto | unfold readyCalls, sessions; simpl; lia].
  - apply bool_decide_eq_true in Hen. subst ph.
    unfold Hook.onresult; simpl.
    destruct (truthy (Hook.finalTranscript event)) eqn:Htext; simpl.
    + rewrite (finalTranscript_bringsFinal event Htext). simpl.
      split; [eauto | unfold readyCalls, sessions; simpl; lia].
    + destruct (Hook.bringsFinal event); simpl;
        (split; [eauto | unfold readyCalls, sessions; simpl; lia]).
  - split; [eauto | unfold readyCalls, sessions; simpl; lia].
  - split; [eauto | unfold readyCalls, sessions; simpl; lia].
Qed.

Lemma step_session_account ev sys :
  configured (hook sys) ->
  ChatPage.enabled ev sys = true ->
  configured (hook (fst (step ev sys)))
  /\ readyCalls (snd (step ev sys))
     + Nat.b2n (Hook.awaitingResult (hook (fst (step ev sys))))
     <= sessions (snd (step ev sys)) + Nat.b2n (Hook.awaitingResult (hook sys)).
Proof.
  intros Hconf Hen. destruct ev as [hev| |id]; unfold ChatPage.step.
  - simpl in Hen.
    destruct (handle_session_account hev (hook sys) Hconf Hen) as [Hc Hle].
    destruct (Hook.handle getVoiceErrorMessage hev (hook sys)) as [h1 out].
    destruct (deliver out (page sys, timers sys)) as [p1 t1].
    cbn [fst snd hook] in *. rewrite rerender_awaitingResult.
    split; [now apply rerender_configured | exact Hle].
  - cbn [fst snd hook]. rewrite rerender_awaitingResult.
    split; [now apply rerender_configured|].
    unfold readyCalls, sessions; simpl; lia.
  - destruct (pending (timers sys) !! id) as [text|]; cbn [fst snd hook].
    + split; [exact Hconf|].
      destruct (truthy (trim text)); unfold readyCalls, sessions; simpl; lia.
    + split; [exact Hconf|]. unfold readyCalls, sessions; simpl; lia.
Qed.

Lemma run_session_account evs sys :
  configured (hook sys) ->
  conforms getVoiceErrorMessage evs sys = true ->
  configured (hook (fst (run evs sys)))
  /\ readyCalls (snd (run evs sys))
     + Nat.b2n (Hook.awaitingResult (hook (fst (run evs sys))))
     <= sessions (snd (run evs sys)) + Nat.b2n (Hook.awaitingResult (hook sys)).
Proof.
  revert sys. induction evs as [|ev rest IH]; intros sys Hconf Hok.
  - simpl. split; [exact Hconf|]. unfold readyCalls, sessions; simpl; lia.
  - cbn [conforms] in Hok. apply andb_true_iff in Hok as [Hen Hrest].
    destruct (step_session_account ev sys Hconf Hen) as [Hc1 Hle1].
    cbn [ChatPage.run].
    destruct (step ev sys) as [sys1 out1]. cbn [fst snd] in *.
    destruct (IH sys1 Hc1 Hrest) as [Hc2 Hle2].
    destruct (run rest sys1) as [sys2 out2]. cbn [fst snd] in *.
    rewrite readyCalls_app, sessions_app.
    split; [exact Hc2 | lia].
Qed.

Lemma run_app evs1 evs2 sys :
  run (evs1 ++ evs2) sys
  = (fst (run evs2 (fst (run evs1 sys))),
     snd (run evs1 sys) ++ snd (run evs2 (fst (run evs1 sys)))).
Proof.
  revert sys. induction evs1 as [|ev rest IH]; intros sys.
  - simpl. now destruct (run evs2 sys).
  - cbn [app ChatPage.run]. destruct (step ev sys) as [sys1 out1].
    rewrite IH. destruct (run rest sys1) as [sys2 out2]. cbn [fst snd].
    now rewrite app_assoc.
Qed.

Lemma configured_init : configured (hook (init true)).
Proof. eexists. split; reflexivity. Qed.

Lemma armed_inv_init supported :
  armed_inv (page (init supported)) (timers (init supported)).
Proof.
  split; [simpl; lia|]. split.
  - intros id [=].
  - intros id x Hx. simpl in Hx. rewrite lookup_empty in Hx. discriminate.
Qed.

End Dispatch.

Section Sessions.

Import ChatPage.

Local Open Scope nat_scope.

Variable getVoiceErrorMessage : jsstring -> Lang -> jsstring.

Local Abbreviation step := (ChatPage.step getVoiceErrorMessage).
Local Abbreviation run := (ChatPage.run getVoiceErrorMessage).

(** C4, amended.  At every point of every run there is at most one armed
    auto-send timer, and rearming leaves exactly the new timer armed (the
    one armed before is cancelled first); so the [sendMessage] calls by
    the timer never outnumber the calls of [onTranscriptReady].  The hook
    has no guard of its own: [onTranscriptReady] is called once for every
    result event with final text.  Only under the recogniser's protocol do
    those calls never outnumber the sessions started, and is
    [onTranscriptReady], from any point on and until another session is
    started, called at most once. *)
Theorem one_armed_timer_one_dispatch_per_session (evs0 evs : list Event) :
  let sys0 := fst (run evs0 (init true)) in
  let out0 := snd (run evs0 (init true)) in
  let sys := fst (run evs sys0) in
  let out := snd (run evs sys0) in
  size (pending (timers sys)) <= 1
  /\ (forall text detected,
        pending (snd (onTranscriptReady text detected (page sys, timers sys)))
        = {[ nextHandle (timers sys) := text ]})
  /\ dispatches (out0 ++ out) <= readyCalls (out0 ++ out)
  /\ readyCalls (out0 ++ out) = length (List.filter carriesFinal (evs0 ++ evs))
  /\ (conforms getVoiceErrorMessage (evs0 ++ evs) (init true) = true ->
      readyCalls (out0 ++ out) <= sessions (out0 ++ out)
      /\ (sessions out = 0 -> readyCalls out <= 1)).
Proof.
  cbv zeta.
  pose proof (run_accounts getVoiceErrorMessage (evs0 ++ evs) (init true)
                (armed_inv_init true) (ex_intro _ _ eq_refl)) as Hall.
  cbv zeta in Hall. rewrite (run_app getVoiceErrorMessage) in Hall. cbn [fst snd] in Hall.
  destruct Hall as (Hinv & _ & Hready & Hcount).
  split; [now apply (armed_inv_size _ _ Hinv)|].
  split.
  { intros text detected.
    now destruct (onTranscriptReady_rearms text detected _ _ Hinv)
      as (_ & _ & Hpend). }
  split.
  { change (size (pending (timers (init true))))
      with (size (∅ : gmap nat jsstring)) in Hcount.
    rewrite map_size_empty in Hcount. lia. }
  split; [exact Hready|].
  intros Hok.
  pose proof (run_session_account getVoiceErrorMessage (evs0 ++ evs) (init true) configured_init Hok)
    as [_ Htotal].
  rewrite (run_app getVoiceErrorMessage) in Htotal. cbn [fst snd] in Htotal. split.
  - change (Hook.awaitingResult (hook (init true))) with false in Htotal.
    simpl Nat.b2n in Htotal. lia.
  - assert (Hok0 : conforms getVoiceErrorMessage evs0 (init true) = true
                   /\ conforms getVoiceErrorMessage evs
                        (fst (run evs0 (init true))) = true).
    { clear -Hok. generalize (init true) Hok. clear Hok.
      induction evs0 as [|ev rest IH]; intros sys Hok; [now split|].
      cbn [app conforms] in Hok. apply andb_true_iff in Hok as [Hen Hrest].
      cbn [conforms ChatPage.run].
      destruct (step ev sys) as [sys1 out1] eqn:Hstep. cbn [fst] in *.
      destruct (IH sys1 Hrest) as [H1 H2].
      destruct (run rest sys1) as [sys2 out2]. cbn [fst] in *.
      split; [now rewrite Hen, H1 | exact H2]. }
    destruct Hok0 as [Hok0 Hok1].
    destruct (run_session_account getVoiceErrorMessage evs0 (init true) configured_init Hok0)
      as [Hc0 _].
    destruct (run_session_account getVoiceErrorMessage evs _ Hc0 Hok1) as [_ Hwin].
    intros Hnone. rewrite Hnone in Hwin.
    destruct (Hook.awaitingResult (hook (fst (run evs (fst (run evs0 (init true)))))));
      destruct (Hook.awaitingResult (hook (fst (run evs0 (init true)))));
      simpl in Hwin; lia.
Qed.

(** The callback arms a timer that carries the text it was given. *)
Lemma onTranscriptReady_arms text detected p t :
  exists id,
    timeoutRef (fst (onTranscriptReady text detected (p, t))) = Some id
    /\ pending (snd (onTranscriptReady text detected (p, t))) !! id = Some text.
Proof.
  unfold onTranscriptReady, handleVoiceTranscript.
  match goal with
  | |- context [setTimeout text ?tt] => exists (nextHandle tt)
  end.
  simpl. split; [reflexivity | apply lookup_insert_eq].
Qed.

(** C2, amended.  A result event with final text calls
    [onTranscriptReady] at once, inside the event, and the page arms its
    auto-send timer with that text.  A [stopRecording()] that follows only
    asks the recogniser to stop: it takes nothing back, the page and the
    armed timer are as before, and when the timer runs its callback calls
    [sendMessage()] if the text is not blank.  (What that call does is not
    part of this statement.) *)
Theorem stop_after_final_result_cancels_nothing sys r event :
  Hook.recognitionRef (hook sys) = Some r ->
  truthy (Hook.finalTranscript event) = true ->
  let sys1 := fst (step (FromHook (Hook.OnResult event)) sys) in
  let out1 := snd (step (FromHook (Hook.OnResult event)) sys) in
  let sys2 := fst (step (FromHook Hook.StopRecording) sys1) in
  let out2 := snd (step (FromHook Hook.StopRecording) sys1) in
  readyCalls out1 = 1
  /\ out2 = [Voice Hook.RecognitionStop]
  /\ page sys2 = page sys1
  /\ timers sys2 = timers sys1
  /\ exists id,
       timeoutRef (page sys2) = Some id
       /\ pending (timers sys2) !! id = Some (Hook.finalTranscript event)
       /\ snd (step (Timeout id) sys2)
          = if truthy (trim (Hook.finalTranscript event))
            then [SendMessage] else [].
Proof.
  intros Href Hfinal. cbv zeta.
  assert (Hinst1 :
    is_Some (Hook.recognitionRef
               (hook (fst (step (FromHook (Hook.OnResult event)) sys))))).
  { unfold ChatPage.step.
    pose proof (handle_keeps_instance getVoiceErrorMessage
                  (Hook.OnResult event) (hook sys) (ex_intro _ r Href)) as Hk.
    destruct (Hook.handle getVoiceErrorMessage (Hook.OnResult event) (hook sys))
      as [h1 o1].
    destruct (deliver o1 (page sys, timers sys)) as [p1 t1].
    cbn [fst snd hook] in *. now apply rerender_keeps_instance. }
  assert (Hstep1 :
    readyCalls (snd (step (FromHook (Hook.OnResult event)) sys)) = 1
    /\ exists id,
         timeoutRef (page (fst (step (FromHook (Hook.OnResult event)) sys)))
         = Some id
         /\ pending (timers (fst (step (FromHook (Hook.OnResult event)) sys)))
              !! id = Some (Hook.finalTranscript event)).
  { unfold ChatPage.step.
    pose proof (handle_ready_calls getVoiceErrorMessage (Hook.OnResult event)
                  (hook sys) r Href) as Hcalls.
    cbv beta iota in Hcalls. rewrite Hfinal in Hcalls.
    destruct (Hook.handle getVoiceErrorMessage (Hook.OnResult event) (hook sys))
      as [h1 o1]. cbn [fst snd] in Hcalls.
    rewrite deliver_calls, Hcalls. cbn [foldl fst snd].
    match goal with
    | |- context [onTranscriptReady ?text ?det ?pt] =>
        destruct (onTranscriptReady_arms text det (fst pt) (snd pt))
          as (id & Hid1 & Hid2);
        cbn [fst snd] in Hid1, Hid2;
        destruct (onTranscriptReady text det pt) as [p1 t1]
    end.
    cbn [fst snd page timers] in *.
    rewrite readyCalls_voice, Hcalls. split; [reflexivity|]. eauto. }
  destruct Hstep1 as (Hready & id & Hid1 & Hid2).
  destruct (step (FromHook (Hook.OnResult event)) sys) as [sys1 out1].
  cbn [fst snd] in *.
  destruct Hinst1 as [r1 Href1].
  assert (Hstop :
    step (FromHook Hook.StopRecording) sys1
    = ({| hook := Hook.rerender (configOf (page sys1)) (hook sys1);
          page := page sys1; timers := timers sys1 |},
       [Voice Hook.RecognitionStop])).
  { unfold ChatPage.step. cbn [Hook.handle].
    unfold Hook.stopRecording. rewrite Href1. reflexivity. }
  rewrite Hstop. cbn [fst snd page timers].
  split; [exact Hready|]. split; [reflexivity|].
  split; [reflexivity|]. split; [reflexivity|].
  exists id. split; [exact Hid1|]. split; [exact Hid2|].
  unfold ChatPage.step. cbn [timers]. rewrite Hid2. reflexivity.
Qed.

End Sessions.

(** A session as the recogniser runs it: an interim result, the final
    result, the timer, the end. *)
Lemma one_armed_timer_one_dispatch_per_session_witness :
  let evs0 := [ ChatPage.FromHook Hook.StartRecording ] in
  let evs :=
    [ ChatPage.FromHook Hook.OnStart;
      ChatPage.FromHook (Hook.OnResult (oneResult false (lit "show")));
      ChatPage.FromHook (Hook.OnResult (oneResult true (lit "show my tasks")));
      ChatPage.Timeout 1;
      ChatPage.FromHook Hook.OnEnd ] in
  let sys0 := fst (ChatPage.run voiceErrorText evs0 (ChatPage.init true)) in
  let out := snd (ChatPage.run voiceErrorText evs sys0) in
  ChatPage.conforms voiceErrorText (evs0 ++ evs) (ChatPage.init true) = true
  /\ ChatPage.sessions out = 0%nat
  /\ (ChatPage.readyCalls out <= 1)%nat
  /\ out = [ ChatPage.Voice
               (Hook.TranscriptReady (lit "show my tasks") (Some en));
             ChatPage.SendMessage ].
Proof.
  cbv zeta.
  pose proof (one_armed_timer_one_dispatch_per_session voiceErrorText
                [ ChatPage.FromHook Hook.StartRecording ]
                [ ChatPage.FromHook Hook.OnStart;
                  ChatPage.FromHook (Hook.OnResult (oneResult false (lit "show")));
                  ChatPage.FromHook
                    (Hook.OnResult (oneResult true (lit "show my tasks")));
                  ChatPage.Timeout 1;
                  ChatPage.FromHook Hook.OnEnd ])
    as (_ & _ & _ & _ & Hsession).
  cbv zeta in Hsession.
  assert (Hok : ChatPage.conforms voiceErrorText
                  ([ ChatPage.FromHook Hook.StartRecording ]
                   ++ [ ChatPage.FromHook Hook.OnStart;
                        ChatPage.FromHook
                          (Hook.OnResult (oneResult false (lit "show")));
                        ChatPage.FromHook
                          (Hook.OnResult (oneResult true (lit "show my tasks")));
                        ChatPage.Timeout 1;
                        ChatPage.FromHook Hook.OnEnd ])
                  (ChatPage.init true) = true) by (vm_compute; reflexivity).
  destruct (Hsession Hok) as [_ Hwindow].
  split; [exact Hok|].
  split; [vm_compute; reflexivity|].
  split; [apply Hwindow; vm_compute; reflexivity|].
  vm_compute; reflexivity.
Defined.

(** C4, as stated, fails: in one session the recogniser delivers two
    results with final text, the second after the first timer has run.
    [onTranscriptReady] is called twice and the timer calls
    [sendMessage()] twice.  (The run is outside the recogniser's protocol,
    which the hook does not enforce.) *)
Lemma second_final_result_counterexample :
  let evs :=
    [ ChatPage.FromHook Hook.StartRecording;
      ChatPage.FromHook Hook.OnStart;
      ChatPage.FromHook (Hook.OnResult (oneResult true (lit "add milk")));
      ChatPage.Timeout 1;
      ChatPage.FromHook (Hook.OnResult (oneResult true (lit "add eggs")));
      ChatPage.Timeout 2;
      ChatPage.FromHook Hook.OnEnd ] in
  let out := snd (ChatPage.run voiceErrorText evs (ChatPage.init true)) in
  ChatPage.sessions out = 1%nat
  /\ ChatPage.readyCalls out = 2%nat
  /\ ChatPage.dispatches out = 2%nat
  /\ out = [ ChatPage.Voice (Hook.RecognitionStart (lit "en-US"));
             ChatPage.Voice (Hook.TranscriptReady (lit "add milk") (Some en));
             ChatPage.SendMessage;
             ChatPage.Voice (Hook.TranscriptReady (lit "add eggs") (Some en));
             ChatPage.SendMessage ].
Proof. vm_compute. repeat split; reflexivity. Qed.

(** C2, as stated, fails: the session gets its final result,
    [stopRecording()] is called before the timer runs, and
    [onTranscriptReady] has been called all the same; the timer then runs
    and calls [sendMessage()]. *)
Lemma stop_after_final_result_counterexample :
  let evs :=
    [ ChatPage.FromHook Hook.StartRecording;
      ChatPage.FromHook Hook.OnStart;
      ChatPage.FromHook (Hook.OnResult (oneResult true (lit "show my tasks")));
      ChatPage.FromHook Hook.StopRecording;
      ChatPage.Timeout 1 ] in
  ChatPage.conforms voiceErrorText evs (ChatPage.init true) = true
  /\ snd (ChatPage.run voiceErrorText evs (ChatPage.init true))
     = [ ChatPage.Voice (Hook.RecognitionStart (lit "en-US"));
         ChatPage.Voice (Hook.TranscriptReady (lit "show my tasks") (Some en));
         ChatPage.Voice Hook.RecognitionStop;
         ChatPage.SendMessage ].
Proof. vm_compute. split; reflexivity. Qed.

(** The final result "show my tasks", then [stopRecording()]. *)
Lemma stop_after_final_result_cancels_nothing_witness :
  let sys := {| ChatPage.hook := listening;
                ChatPage.page := ChatPage.initial;
                ChatPage.timers := {| ChatPage.pending := ∅;
                                      ChatPage.nextHandle := 1 |} |} in
  let event := oneResult true (lit "show my tasks") in
  truthy (Hook.finalTranscript event) = true
  /\ ChatPage.readyCalls
       (snd (ChatPage.step voiceErrorText
               (ChatPage.FromHook (Hook.OnResult event)) sys)) = 1%nat
  /\ snd (ChatPage.step voiceErrorText (ChatPage.FromHook Hook.StopRecording)
            (fst (ChatPage.step voiceErrorText
                    (ChatPage.FromHook (Hook.OnResult event)) sys)))
     = [ChatPage.Voice Hook.RecognitionStop].
Proof.
  cbv zeta.
  pose proof (stop_after_final_result_cancels_nothing voiceErrorText
                {| ChatPage.hook := listening;
                   ChatPage.page := ChatPage.initial;
                   ChatPage.timers := {| ChatPage.pending := ∅;
                                         ChatPage.nextHandle := 1 |} |}
                _ (oneResult true (lit "show my tasks")) eq_refl eq_refl)
    as (Hready & Hout & _).
  split; [reflexivity|]. split; [exact Hready | exact Hout].
Defined.

(* ===================================================================== *)
(** * Result events: the loop and the detection *)
(* ===================================================================== *)

Section ResultLoop.

Import Speech Hook.

Variable getVoiceErrorMessage : jsstring -> Lang -> jsstring.

Local Abbreviation handle := (Hook.handle getVoiceErrorMessage).

Lemma collect_concat rs interim final :
  collect rs interim final
  = (interim ++ concat (map (fun r => Speech.transcript (item0 r))
                            (List.filter (fun r => negb (isFinal r)) rs)),
     final ++ concat (map (fun r => Speech.transcript (item0 r))
                          (List.filter isFinal rs))).
Proof.
  revert interim final. induction rs as [|r rest IH]; intros interim final.
  - simpl. now rewrite !app_nil_r.
  - simpl. destruct (isFinal r); simpl; rewrite IH; simpl;
      now rewrite <- ?app_assoc.
Qed.

(** X1.  The loop of [onresult] concatenates, in order, the best
    transcripts of the final results from [resultIndex] on into the final
    text, and those of the other results into the interim text; results
    before [resultIndex] are not read, and an index at or past the end of
    the list gives two empty texts. *)
Theorem onresult_loop_concatenates (event : SpeechRecognitionEvent)
    (rs : list SpeechRecognitionResult) (k : nat) :
  finalTranscript event
  = concat (map (fun r => Speech.transcript (item0 r))
                (List.filter isFinal
                   (drop (resultIndex event) (results event))))
  /\ interimTranscript event
     = concat (map (fun r => Speech.transcript (item0 r))
                   (List.filter (fun r => negb (isFinal r))
                      (drop (resultIndex event) (results event))))
  /\ finalTranscript {| resultIndex := length rs + k; results := rs |} = []
  /\ interimTranscript {| resultIndex := length rs + k; results := rs |} = []
  /\ finalTranscript {| resultIndex := length rs;
                        results := rs ++ results event |}
     = finalTranscript {| resultIndex := 0; results := results event |}.
Proof.
  unfold finalTranscript, interimTranscript. rewrite !collect_concat. simpl.
  repeat split; try reflexivity.
  - rewrite drop_ge by lia. reflexivity.
  - rewrite drop_ge by lia. reflexivity.
  - now rewrite drop_app_length.
Qed.

Lemma containsUrdu_app a b :
  containsUrdu (a ++ b) = containsUrdu a || containsUrdu b.
Proof. unfold containsUrdu. apply existsb_app. Qed.

Lemma containsUrdu_concat (parts : list jsstring) :
  containsUrdu (concat parts) = existsb containsUrdu parts.
Proof.
  induction parts as [|p rest IH]; [reflexivity|].
  simpl. now rewrite containsUrdu_app, IH.
Qed.

(** X2.  The language detected for a result event is Urdu exactly when one
    of its final results (from [resultIndex] on) has a transcript with an
    Arabic-block code unit: one such part tips the whole concatenated
    text. *)
Theorem detected_urdu_iff_some_final_part (event : SpeechRecognitionEvent) :
  detectLanguage (finalTranscript event) = ur
  <-> exists result,
        In result (drop (resultIndex event) (results event))
        /\ isFinal result = true
        /\ containsUrdu (Speech.transcript (item0 result)) = true.
Proof.
  unfold finalTranscript. rewrite collect_concat. cbn [snd app].
  unfold detectLanguage. rewrite containsUrdu_concat.
  set (rs := drop (resultIndex event) (results event)).
  destruct (existsb containsUrdu _) eqn:Hex.
  - split; [intros _ | reflexivity].
    apply existsb_exists in Hex as (t & Hin & Ht).
    apply in_map_iff in Hin as (r & <- & Hr).
    apply List.filter_In in Hr as [Hr Hfin]. eauto.
  - split; [discriminate|]. intros (r & Hr & Hfin & Ht). exfalso.
    assert (existsb containsUrdu
              (map (fun r => Speech.transcript (item0 r))
                   (List.filter isFinal rs)) = true) as Habs.
    { apply existsb_exists. exists (Speech.transcript (item0 r)).
      split; [|exact Ht]. apply in_map_iff. exists r. split; [reflexivity|].
      apply List.filter_In. auto. }
    congruence.
Qed.

(** X3.  The result handler keeps reading the props of the mount: what it
    passes to [onTranscriptReady] and stores as [detectedLanguage] is the
    same value, [null] exactly when [autoDetect] was [false] at mount (an
    omitted [autoDetect] detects), and a later render with other props
    changes none of it. *)
Theorem result_handler_keeps_mount_props s r c event :
  recognitionRef s = Some r ->
  truthy (finalTranscript event) = true ->
  let detected :=
    match autoDetect (mountConfig s) with
    | Some false => None
    | _ => Some (detectLanguage (finalTranscript event))
    end in
  let s' := fst (handle (OnResult event) (fst (handle (Rerender c) s))) in
  snd (handle (OnResult event) (fst (handle (Rerender c) s)))
  = [TranscriptReady (finalTranscript event) detected]
  /\ snd (handle (OnResult event) s)
     = [TranscriptReady (finalTranscript event) detected]
  /\ detectedLanguage s' = detected
  /\ transcript s' = finalTranscript event
  /\ isTranscribing s' = false.
Proof.
  intros Href Hfinal. cbv zeta.
  assert (Hdet : (if autoDetect_enabled (mountConfig s)
                  then Some (detectLanguage (finalTranscript event)) else None)
                 = match autoDetect (mountConfig s) with
                   | Some false => None
                   | _ => Some (detectLanguage (finalTranscript event))
                   end).
  { unfold autoDetect_enabled. destruct (autoDetect (mountConfig s)) as [[|]|];
      reflexivity. }
  assert (Hre : exists r', recognitionRef (rerender c s) = Some r'
                           /\ mountConfig (rerender c s) = mountConfig s).
  { unfold rerender. case_decide; simpl; [eauto|].
    unfold languageEffect. simpl. rewrite Href.
    destruct (isSupported s); simpl; eauto. }
  destruct Hre as (r' & Href' & Hmount).
  cbn [Hook.handle fst]. rewrite Href, Href'. cbn [snd fst].
  rewrite !onresult_effects. cbn [mountConfig setRecognitionRef].
  rewrite Hfinal, Hmount, Hdet.
  split; [reflexivity|]. split; [reflexivity|].
  unfold onresult. rewrite Hfinal. cbn [mountConfig setRecognitionRef setTranscript].
  rewrite Hmount, Hdet. simpl. unfold or_else. rewrite Hfinal. auto.
Qed.

(** X4.  An error event lowers both flags, leaves the transcript, and sets
    the error to the message for its code in the language the hook was
    mounted with: a render that changed [config.language] in between does
    not change the language of the message. *)
Theorem error_message_in_mount_language s r c code :
  recognitionRef s = Some r ->
  let s' := fst (handle (OnError code) (fst (handle (Rerender c) s))) in
  error s' = Some (getVoiceErrorMessage code (language (mountConfig s)))
  /\ isRecording s' = false
  /\ isTranscribing s' = false
  /\ transcript s' = transcript s
  /\ snd (handle (OnError code) (fst (handle (Rerender c) s))) = [].
Proof.
  intros Href. cbv zeta.
  assert (Hre : exists r', recognitionRef (rerender c s) = Some r'
                           /\ mountConfig (rerender c s) = mountConfig s
                           /\ transcript (rerender c s) = transcript s).
  { unfold rerender. case_decide; simpl; [eauto|].
    unfold languageEffect. simpl. rewrite Href.
    destruct (isSupported s); simpl; eauto. }
  destruct Hre as (r' & Href' & Hmount & Htxt).
  cbn [Hook.handle fst]. rewrite Href'. simpl.
  rewrite Hmount, Htxt. auto.
Qed.

End ResultLoop.

(** The props change to Urdu with detection switched off; the handler
    still detects, as the props of the mount said. *)
Lemma result_handler_keeps_mount_props_witness :
  let event := oneResult true (lit "add milk") in
  truthy (Hook.finalTranscript event) = true
  /\ snd (Hook.handle voiceErrorText (Hook.OnResult event)
            (fst (Hook.handle voiceErrorText
                    (Hook.Rerender {| Speech.language := ur;
                                      Speech.autoDetect := Some false |})
                    listening)))
     = [Hook.TranscriptReady (lit "add milk") (Some en)].
Proof.
  cbv zeta.
  pose proof (result_handler_keeps_mount_props voiceErrorText listening _
                {| Speech.language := ur; Speech.autoDetect := Some false |}
                (oneResult true (lit "add milk")) eq_refl eq_refl)
    as (Hout & _).
  split; [reflexivity | exact Hout].
Defined.

(** The display language changes to Urdu, then the microphone is denied:
    the message is the English one. *)
Lemma error_message_in_mount_language_witness :
  Hook.error
    (fst (Hook.handle voiceErrorText (Hook.OnError (lit "not-allowed"))
            (fst (Hook.handle voiceErrorText (Hook.Rerender urduAutoDetect)
                    listening))))
  = Some (lit "Microphone access denied. Please allow microphone permissions.").
Proof.
  pose proof (error_message_in_mount_language voiceErrorText listening _
                urduAutoDetect (lit "not-allowed") eq_refl) as (Herr & _).
  exact Herr.
Defined.

(* ===================================================================== *)
(** * The hook over its lifetime *)
(* ===================================================================== *)

Section Lifetime.

Import Speech Hook.

Variable getVoiceErrorMessage : jsstring -> Lang -> jsstring.

Local Abbreviation handle := (Hook.handle getVoiceErrorMessage).
Local Abbreviation run := (Hook.run getVoiceErrorMessage).
Local Abbreviation reachable := (Hook.reachable getVoiceErrorMessage).

(** X5.  No session leaves the recogniser stuck: in every reachable state,
    once the recogniser's end event is handled both flags are down, and
    the next [startRecording()] is accepted: it starts the recogniser with
    the tag of the current language and reports no error. *)
Theorem start_accepted_after_end supported c s :
  reachable supported c s ->
  enabled OnEnd s = true ->
  let ended := fst (handle OnEnd s) in
  isRecording ended = false
  /\ isTranscribing ended = false
  /\ snd (handle StartRecording ended)
     = [RecognitionStart (getLanguageCode (language (config s)))]
  /\ error (fst (handle StartRecording ended)) = error s
  /\ enabled OnStart (fst (handle StartRecording ended)) = true.
Proof.
  intros Hreach Hen. apply reachable_inv in Hreach as (_ & Hinv).
  cbv zeta. simpl in Hen |- *.
  destruct (recognitionRef s) as [r|] eqn:Href; [|discriminate].
  destruct Hinv as (Hsup & _).
  simpl. unfold startRecording. simpl. rewrite Hsup. simpl.
  repeat split; reflexivity.
Qed.

(** X6.  The three actions and a render with new props never change
    [isRecording], [isTranscribing] or [detectedLanguage]: only the
    recogniser's events do.  In particular [stopRecording()] does not
    lower [isRecording]; the flag stays up until the end or error event. *)
Theorem actions_keep_flags s c :
  (forall ev, In ev [StartRecording; StopRecording; ResetTranscript; Rerender c] ->
     isRecording (fst (handle ev s)) = isRecording s
     /\ isTranscribing (fst (handle ev s)) = isTranscribing s
     /\ detectedLanguage (fst (handle ev s)) = detectedLanguage s)
  /\ fst (handle StopRecording s) = s
  /\ fst (handle StopRecording (fst (handle StopRecording s))) = s.
Proof.
  assert (Hstop : fst (handle StopRecording s) = s).
  { simpl. unfold stopRecording. now destruct (recognitionRef s). }
  split; [|split; [exact Hstop | now rewrite !Hstop]].
  intros ev [<-|[<-|[<-|[<-|[]]]]].
  - simpl. unfold startRecording.
    destruct (isSupported s); simpl; [|auto].
    destruct (recognitionRef s) as [r|]; simpl; [|auto].
    destruct (start _); simpl; auto.
  - rewrite Hstop. auto.
  - simpl. auto.
  - simpl. unfold rerender. case_decide; simpl; [auto|].
    unfold languageEffect. simpl.
    destruct (recognitionRef s) as [r|]; simpl; [|auto].
    destruct (isSupported s); simpl; auto.
Qed.

(** X7.  Unmounting asks the recogniser to stop, once, exactly when there
    is one, empties the ref and clears no timer; afterwards
    [stopRecording()] does nothing and [startRecording()] opens no
    handle. *)
Theorem unmount_releases_recogniser supported c s :
  reachable supported c s ->
  let s' := fst (unmount s) in
  snd (unmount s)
  = match recognitionRef s with
    | Some _ => [RecognitionStop]
    | None => []
    end
  /\ recognitionRef s' = None
  /\ handle StopRecording s' = (s', [])
  /\ Forall (fun e => opensHandle e = false) (snd (handle StartRecording s'))
  /\ recognitionRef (fst (handle StartRecording s')) = None.
Proof.
  intros Hreach. apply reachable_inv in Hreach as (Htimer & Hinv).
  cbv zeta. unfold unmount. rewrite Htimer.
  destruct (recognitionRef s) as [r|] eqn:Href.
  - destruct Hinv as (Hsup & _). rewrite Hsup. simpl.
    unfold stopRecording, startRecording. simpl. rewrite Hsup. simpl.
    repeat split; auto.
  - destruct Hinv as (Hsup & _). simpl.
    unfold stopRecording, startRecording. rewrite Href, Hsup. simpl.
    repeat split; auto.
Qed.

Lemma unsupported_inv_step ev s :
  unsupported_inv getVoiceErrorMessage s ->
  unsupported_inv getVoiceErrorMessage (fst (handle ev s)).
Proof.
  intros (Hsup & Href & Hrec & Htrn & Htxt & Hdet & Herr).
  destruct ev as [| | |c'| |event| |]; simpl;
    unfold startRecording, stopRecording, rerender, languageEffect;
    rewrite ?Hsup, ?Href; simpl; try (repeat split; auto; fail).
  - repeat split; auto. right. eauto.
  - case_decide; simpl; rewrite ?Href; simpl; repeat split; auto.
Qed.

(** X8.  In a host without the capability, whatever actions, renders and
    events follow the mount, the hook never shows a session: both flags
    stay false, the transcript stays empty, no language is detected, and
    the error is either [null] or a not-supported message. *)
Theorem unsupported_host_shows_no_session (c : VoiceRecognitionConfig)
    (evs : list Event) :
  let s := fst (run evs (fst (mount false c))) in
  isRecording s = false
  /\ isTranscribing s = false
  /\ transcript s = []
  /\ detectedLanguage s = None
  /\ (error s = None
      \/ exists l, error s = Some (getVoiceErrorMessage (lit "not-supported") l)).
Proof.
  cbv zeta.
  assert (Hinv : unsupported_inv getVoiceErrorMessage
                   (fst (run evs (fst (mount false c))))).
  { assert (H0 : unsupported_inv getVoiceErrorMessage (fst (mount false c))).
    { unfold unsupported_inv. simpl. repeat split; auto. }
    revert H0. generalize (fst (mount false c)).
    induction evs as [|ev rest IH]; intros s0 H0; [exact H0|].
    simpl. pose proof (unsupported_inv_step ev s0 H0) as H1.
    destruct (handle ev s0) as [s1 out1]. simpl in H1.
    specialize (IH s1 H1). destruct (run rest s1) as [s2 out2]. exact IH. }
  destruct Hinv as (_ & _ & H1 & H2 & H3 & H4 & H5). auto.
Qed.

(** X9.  The microphone button.  While the hook records, a click only asks
    the recogniser to stop; while the recogniser is idle, a click starts a
    session with the tag of the current language; in between (the start
    event or the end event still pending) a click is a second [start()],
    which the browser rejects, and the hook reports the not-allowed
    message. *)
Theorem micClick_by_phase supported c s r :
  reachable supported c s ->
  recognitionRef s = Some r ->
  Chat.micClick getVoiceErrorMessage s
  = match phase r with
    | Listening | Finalised => (s, [RecognitionStop])
    | Idle =>
        (setRecognitionRef (Some (with_phase Starting r)) s,
         [RecognitionStart (getLanguageCode (language (config s)))])
    | Starting | Ending =>
        (setError (Some (getVoiceErrorMessage (lit "not-allowed")
                                              (language (config s)))) s,
         [ConsoleError])
    end.
Proof.
  intros Hreach Href. apply reachable_inv in Hreach as (_ & Hinv).
  rewrite Href in Hinv. destruct Hinv as (Hsup & _ & Htag & Hrec & _).
  unfold Chat.micClick.
  assert (Hr1 : with_lang (getLanguageCode (language (config s))) r = r).
  { destruct r; simpl in *. now subst. }
  assert (Hs : setRecognitionRef (Some r) s = s).
  { destruct s; simpl in *. now subst. }
  destruct (isRecording s) eqn:Hflag.
  - unfold stopRecording. rewrite Href.
    destruct (proj1 Hrec eq_refl) as [-> | ->]; reflexivity.
  - unfold startRecording. rewrite Hsup, Href. simpl. rewrite Hr1.
    unfold start.
    destruct (phase r) eqn:Hph; simpl; rewrite ?Hs, ?Htag; try reflexivity;
      (assert (false = true) by (apply Hrec; auto)); discriminate.
Qed.

End Lifetime.

(** The listening hook: its end event, then a new start. *)
Lemma start_accepted_after_end_witness :
  Hook.enabled Hook.OnEnd listening = true
  /\ snd (Hook.handle voiceErrorText Hook.StartRecording
            (fst (Hook.handle voiceErrorText Hook.OnEnd listening)))
     = [Hook.RecognitionStart (lit "en-US")].
Proof.
  pose proof (start_accepted_after_end voiceErrorText true englishAutoDetect
                listening listening_reachable eq_refl) as (_ & _ & Hout & _).
  split; [reflexivity | exact Hout].
Defined.

(** Unmounting while the hook listens. *)
Lemma unmount_releases_recogniser_witness :
  snd (Hook.unmount listening) = [Hook.RecognitionStop]
  /\ Hook.recognitionRef (fst (Hook.unmount listening)) = None.
Proof.
  pose proof (unmount_releases_recogniser voiceErrorText true englishAutoDetect
                listening listening_reachable) as (Hout & Href & _).
  split; [exact Hout | exact Href].
Defined.

(** A second click before the start event has arrived. *)
Lemma micClick_by_phase_witness :
  snd (Chat.micClick voiceErrorText starting) = [Hook.ConsoleError]
  /\ Hook.error (fst (Chat.micClick voiceErrorText starting))
     = Some (lit "Microphone access denied. Please allow microphone permissions.").
Proof.
  pose proof (micClick_by_phase voiceErrorText true englishAutoDetect
                starting _ starting_reachable eq_refl) as Hclick.
  rewrite Hclick. split; reflexivity.
Defined.

(* ===================================================================== *)
(** * The one recogniser *)
(* ===================================================================== *)

Section OneRecogniser.

Import Speech Hook.

Variable getVoiceErrorMessage : jsstring -> Lang -> jsstring.

Local Abbreviation handle := (Hook.handle getVoiceErrorMessage).
Local Abbreviation run := (Hook.run getVoiceErrorMessage).

Lemma handle_keeps_configuration ev s r :
  recognitionRef s = Some r ->
  (exists r', recognitionRef (fst (handle ev s)) = Some r'
              /\ continuous r' = continuous r
              /\ interimResults r' = interimResults r
              /\ maxAlternatives r' = maxAlternatives r)
  /\ Forall (fun e => e <> NewSpeechRecognition) (snd (handle ev s)).
Proof.
  intros Href.
  destruct ev as [| | |c| |event| |]; cbn [Hook.handle];
    unfold startRecording, stopRecording; rewrite ?Href; cbn [fst snd].
  - destruct (isSupported s); simpl.
    + unfold start. destruct (phase _); simpl;
        (split; [eauto | repeat constructor; discriminate]).
    + rewrite Href. split; [eauto | constructor].
  - split; [eauto | repeat constructor; discriminate].
  - simpl. rewrite Href. split; [eauto | constructor].
  - split; [|constructor]. unfold rerender. case_decide; simpl.
    + rewrite Href. eauto.
    + unfold languageEffect. simpl. rewrite Href.
      destruct (isSupported s); simpl; [eauto | rewrite Href; eauto].
  - simpl. split; [eauto | constructor].
  - unfold onresult.
    destruct (truthy (finalTranscript event)); simpl;
      (split; [|repeat constructor; discriminate]);
      destruct (negb (continuous r) && bringsFinal event); simpl; eauto.
  - simpl. split; [eauto | constructor].
  - simpl. split; [eauto | constructor].
Qed.

(** X20.  The hook has one recogniser for as long as it is mounted: the
    mount constructs it, configured for a single utterance
    ([continuous = false]) with interim results and one alternative;
    whatever actions, renders and events follow, in whatever order, none
    constructs another one, and the ref keeps pointing to a recogniser
    with that configuration. *)
Theorem one_recogniser_with_fixed_configuration
    (c : VoiceRecognitionConfig) (evs : list Event) :
  snd (mount true c) = [NewSpeechRecognition]
  /\ Forall (fun e => e <> NewSpeechRecognition)
            (snd (run evs (fst (mount true c))))
  /\ exists r, recognitionRef (fst (run evs (fst (mount true c)))) = Some r
               /\ continuous r = false
               /\ interimResults r = true
               /\ maxAlternatives r = 1%nat.
Proof.
  split; [reflexivity|].
  assert (Hgen : forall s r,
            recognitionRef s = Some r ->
            Forall (fun e => e <> NewSpeechRecognition) (snd (run evs s))
            /\ exists r', recognitionRef (fst (run evs s)) = Some r'
                          /\ continuous r' = continuous r
                          /\ interimResults r' = interimResults r
                          /\ maxAlternatives r' = maxAlternatives r).
  { induction evs as [|ev rest IH]; intros s r Href.
    - simpl. split; [constructor | eauto].
    - simpl.
      destruct (handle_keeps_configuration ev s r Href)
        as [(r1 & Href1 & H1 & H2 & H3) Hout1].
      destruct (handle ev s) as [s1 out1]. simpl in *.
      destruct (IH s1 r1 Href1) as [Hout2 (r2 & Href2 & G1 & G2 & G3)].
      destruct (run rest s1) as [s2 out2]. simpl in *.
      split; [apply Forall_app; auto|].
      exists r2. repeat split; congruence. }
  destruct (Hgen (fst (mount true c)) _ eq_refl) as [Hout (r & Href & H1 & H2 & H3)].
  split; [exact Hout|]. exists r. auto.
Qed.

End OneRecogniser.

(* ===================================================================== *)
(** * [trim] *)
(* ===================================================================== *)

Section Trim.

Lemma trimStart_suffix s :
  exists pre, s = pre ++ trimStart s /\ forallb isWhiteSpace pre = true.
Proof.
  induction s as [|u rest IH]; simpl.
  - exists []. auto.
  - destruct (isWhiteSpace u) eqn:Hu.
    + destruct IH as (pre & Heq & Hpre). exists (u :: pre). simpl.
      rewrite Hu, Hpre. split; [congruence | reflexivity].
    + exists []. auto.
Qed.

Lemma trimStart_head s :
  match trimStart s with
  | [] => forallb isWhiteSpace s = true
  | u :: _ => isWhiteSpace u = false
  end.
Proof.
  induction s as [|u rest IH]; simpl; [reflexivity|].
  destruct (isWhiteSpace u) eqn:Hu; simpl; [|exact Hu].
  destruct (trimStart rest); auto.
Qed.

Lemma trimStart_fixed s u rest :
  s = u :: rest -> isWhiteSpace u = false -> trimStart s = s.
Proof. intros -> Hu. simpl. now rewrite Hu. Qed.

(** What [trim] returns: the input without a whitespace prefix and a
    whitespace suffix, and the rest, when there is one, begins and ends
    with a code unit that is not whitespace. *)
Lemma trim_spec s :
  exists pre post,
    s = pre ++ trim s ++ post
    /\ forallb isWhiteSpace pre = true
    /\ forallb isWhiteSpace post = true
    /\ (trim s = []
        \/ exists first middle last,
             (trim s = [first] /\ middle = [] /\ last = first
              \/ trim s = first :: middle ++ [last])
             /\ isWhiteSpace first = false /\ isWhiteSpace last = false).
Proof.
  unfold trim.
  destruct (trimStart_suffix s) as (pre & Hs & Hpre).
  set (t := trimStart s) in *.
  destruct (trimStart_suffix (rev t)) as (post' & Hrev & Hpost').
  set (m := trimStart (rev t)) in *.
  exists pre, (rev post').
  assert (Ht : t = rev m ++ rev post').
  { rewrite <- rev_app_distr, <- Hrev. now rewrite rev_involutive. }
  split; [now rewrite <- Ht|]. split; [exact Hpre|].
  split.
  { rewrite forallb_forall in Hpost' |- *. intros x Hx.
    apply Hpost'. now apply in_rev. }
  pose proof (trimStart_head (rev t)) as Hm. fold m in Hm.
  destruct m as [|z m'] eqn:Hmeq; [left; reflexivity|].
  right.
  pose proof (trimStart_head s) as Hhead. fold t in Hhead.
  destruct (rev m') as [|a body] eqn:Hbody.
  - exists z, [], z. simpl. rewrite Hbody. simpl. auto.
  - exists a, body, z. simpl. rewrite Hbody. simpl.
    split; [right; reflexivity|]. split; [|exact Hm].
    rewrite Ht in Hhead. simpl in Hhead. rewrite Hbody in Hhead.
    simpl in Hhead. exact Hhead.
Qed.

Lemma trimStart_truthy s :
  truthy (trimStart s) = existsb (fun u => negb (isWhiteSpace u)) s.
Proof.
  induction s as [|u rest IH]; simpl; [reflexivity|].
  destruct (isWhiteSpace u); simpl; [exact IH | reflexivity].
Qed.

Lemma existsb_rev {A} (f : A -> bool) (l : list A) :
  existsb f (rev l) = existsb f l.
Proof.
  induction l as [|x rest IH]; simpl; [reflexivity|].
  rewrite existsb_app, IH. simpl. rewrite orb_false_r. apply orb_comm.
Qed.

Lemma truthy_rev (s : jsstring) : truthy (rev s) = truthy s.
Proof.
  destruct s as [|u rest]; simpl; [reflexivity|].
  destruct (rev rest); reflexivity.
Qed.

(** [s.trim()] is truthy exactly when [s] has a code unit that is not
    whitespace. *)
Lemma trim_truthy s :
  truthy (trim s) = existsb (fun u => negb (isWhiteSpace u)) s.
Proof.
  unfold trim. rewrite truthy_rev, trimStart_truthy, existsb_rev.
  destruct (trimStart_suffix s) as (pre & Hs & Hpre).
  rewrite Hs at 2. rewrite existsb_app.
  assert (existsb (fun u => negb (isWhiteSpace u)) pre = false) as ->.
  { clear Hs. induction pre as [|x rest IH]; [reflexivity|].
    simpl in Hpre |- *. apply andb_true_iff in Hpre as [-> Hrest].
    simpl. now apply IH. }
  reflexivity.
Qed.

End Trim.

Section TrimEnds.

(** [trim] cuts a whitespace prefix and a whitespace suffix off its input,
    and what it returns neither begins nor ends with whitespace. *)
Lemma trim_ends s :
  exists pre post,
    s = pre ++ trim s ++ post
    /\ forallb isWhiteSpace pre = true
    /\ forallb isWhiteSpace post = true
    /\ (forall u, head (trim s) = Some u -> isWhiteSpace u = false)
    /\ (forall u, last (trim s) = Some u -> isWhiteSpace u = false).
Proof.
  destruct (trim_spec s) as (pre & post & Hs & Hpre & Hpost & Hshape).
  exists pre, post. split; [exact Hs|]. split; [exact Hpre|].
  split; [exact Hpost|].
  destruct Hshape as [-> | (first & middle & lst & Hcases & Hf & Hl)].
  - split; intros u [=].
  - destruct Hcases as [(-> & _ & ->) | ->].
    + split; intros u [= <-]; assumption.
    + split.
      * intros u [= <-]. exact Hf.
      * intros u Hu. rewrite app_comm_cons, last_snoc in Hu.
        injection Hu as <-. exact Hl.
Qed.

End TrimEnds.

(* ===================================================================== *)
(** * The auto-send timer, continued *)
(* ===================================================================== *)

Section TimerLife.

Import ChatPage.

Local Open Scope nat_scope.

Variable getVoiceErrorMessage : jsstring -> Lang -> jsstring.

Local Abbreviation step := (ChatPage.step getVoiceErrorMessage).
Local Abbreviation run := (ChatPage.run getVoiceErrorMessage).

(** X10.  When an armed timer runs it is disarmed, and [sendMessage] is
    called exactly when the transcript it was armed with has a code unit
    that is not whitespace: a final transcript of blanks reaches
    [onTranscriptReady] and the input box, but is never dispatched. *)
Theorem blank_transcript_not_dispatched sys id (text : jsstring) :
  pending (timers sys) !! id = Some text ->
  snd (step (Timeout id) sys)
  = (if existsb (fun u => negb (isWhiteSpace u)) text then [SendMessage] else [])
  /\ pending (timers (fst (step (Timeout id) sys))) !! id = None
  /\ page (fst (step (Timeout id) sys)) = page sys
  /\ hook (fst (step (Timeout id) sys)) = hook sys.
Proof.
  intros Hid. unfold ChatPage.step. rewrite Hid. cbn [fst snd timers page hook].
  rewrite trim_truthy. split; [reflexivity|].
  split; [apply lookup_delete_eq | auto].
Qed.

Lemma rerender_tagged c s :
  tagged s ->
  tagged (Hook.rerender c s) /\ Hook.config (Hook.rerender c s) = c.
Proof.
  intros (r & Href & Hsup & Htag). unfold Hook.rerender.
  case_decide as Heq; simpl.
  - split; [|reflexivity]. exists r. simpl. rewrite Heq. auto.
  - unfold Hook.languageEffect. simpl. rewrite Href, Hsup. simpl.
    split; [|reflexivity]. eexists. simpl. eauto.
Qed.

Lemma handle_tagged hev s :
  tagged s -> tagged (fst (Hook.handle getVoiceErrorMessage hev s)).
Proof.
  intros Ht. pose proof Ht as (r & Href & Hsup & Htag).
  destruct hev as [| | |c| |event| |]; cbn [Hook.handle];
    unfold Hook.startRecording, Hook.stopRecording; rewrite ?Href, ?Hsup;
    cbn [fst negb].
  - unfold Speech.start.
    destruct (Speech.phase _); simpl; eexists; simpl; eauto.
  - exact Ht.
  - exists r. simpl. auto.
  - now apply rerender_tagged.
  - eexists. simpl. eauto.
  - unfold Hook.onresult.
    destruct (truthy (Hook.finalTranscript event)); simpl;
      (eexists; simpl; split; [reflexivity|]; split; [exact Hsup|]);
      destruct (negb (Speech.continuous r) && Hook.bringsFinal event);
      exact Htag.
  - eexists. simpl. eauto.
  - eexists. simpl. eauto.
Qed.

(** X12.  The recogniser always carries the page's display language: after
    every run of the page, the hook's [config.language] is the page's
    [language] and the recogniser's tag is its language code, whether the
    language was changed by the button or by detection, in or out of a
    session. *)
Theorem recogniser_tag_follows_page_language (evs : list Event) :
  let sys := fst (run evs (init true)) in
  Speech.language (Hook.config (hook sys)) = language (page sys)
  /\ (Speech.lang <$> Hook.recognitionRef (hook sys))
     = Some (getLanguageCode (language (page sys))).
Proof.
  cbv zeta.
  assert (Hinv : forall sys,
            tagged (hook sys) /\ Hook.config (hook sys) = configOf (page sys) ->
            tagged (hook (fst (run evs sys)))
            /\ Hook.config (hook (fst (run evs sys)))
               = configOf (page (fst (run evs sys)))).
  { induction evs as [|ev rest IH]; intros sys [Ht Hc]; [simpl; auto|].
    cbn [ChatPage.run].
    assert (Hstep : tagged (hook (fst (step ev sys)))
                    /\ Hook.config (hook (fst (step ev sys)))
                       = configOf (page (fst (step ev sys)))).
    { destruct ev as [hev| |k]; unfold ChatPage.step.
      - pose proof (handle_tagged hev (hook sys) Ht) as Ht1.
        destruct (Hook.handle getVoiceErrorMessage hev (hook sys)) as [h1 out].
        destruct (deliver out (page sys, timers sys)) as [p1 t1].
        cbn [fst hook page] in *. now apply rerender_tagged.
      - cbn [fst hook page]. now apply rerender_tagged.
      - destruct (pending (timers sys) !! k); cbn [fst hook page]; auto. }
    destruct (step ev sys) as [sys1 out1]. cbn [fst] in *.
    specialize (IH sys1 Hstep).
    destruct (run rest sys1) as [sys2 out2]. exact IH. }
  destruct (Hinv (init true)) as [(r & Href & _ & Htag) Hc].
  { split; [|reflexivity]. eexists. simpl. eauto. }
  rewrite Hc, Href. simpl. split; [reflexivity|]. now rewrite Htag, Hc.
Qed.

(** X13.  Detection switches the page to Urdu only: once the page's
    language is Urdu, no action, recogniser event or timer changes it;
    only the language button does (the callback compares the detected
    language with the language of the first render, English). *)
Theorem detection_never_switches_back (evs : list Event) sys :
  language (page sys) = ur ->
  forallb (fun ev => match ev with ToggleLanguage => false | _ => true end) evs
  = true ->
  language (page (fst (run evs sys))) = ur.
Proof.
  revert sys. induction evs as [|ev rest IH]; intros sys Hur Hno; [exact Hur|].
  cbn [forallb] in Hno. apply andb_true_iff in Hno as [Hev Hrest].
  cbn [ChatPage.run].
  assert (Hstep : language (page (fst (step ev sys))) = ur).
  { destruct ev as [hev| |k]; [|discriminate|]; unfold ChatPage.step.
    - destruct (Hook.handle getVoiceErrorMessage hev (hook sys)) as [h1 out].
      assert (Hd : forall p t, language p = ur ->
                               language (fst (deliver out (p, t))) = ur).
      { clear. induction out as [|e rest IH]; intros p t Hp; [exact Hp|].
        destruct e; cbn [deliver]; try (now apply IH).
        unfold onTranscriptReady, handleVoiceTranscript.
        match goal with
        | |- context [setInputMessage text ?q] =>
            assert (Hq : language q = ur)
              by (destruct detected as [[|]|]; simpl; auto)
        end.
        match goal with
        | |- language (fst (deliver rest ?pt)) = ur =>
            destruct pt as [p1 t1] eqn:Hpt
        end.
        apply IH. injection Hpt as <- _. simpl. exact Hq. }
      specialize (Hd (page sys) (timers sys) Hur).
      destruct (deliver out (page sys, timers sys)) as [p1 t1]. exact Hd.
    - destruct (pending (timers sys) !! k); exact Hur. }
  destruct (step ev sys) as [sys1 out1]. cbn [fst] in *.
  specialize (IH sys1 Hstep Hrest).
  destruct (run rest sys1) as [sys2 out2]. exact IH.
Qed.

End TimerLife.

(* ===================================================================== *)
(** * The chat: sending messages *)
(* ===================================================================== *)

Section Sending.

Import Chat.

(** X14.  [sendMessage] posts nothing and changes nothing when the input
    its render saw is blank or there is no user id.  Otherwise it posts
    the input without its surrounding whitespace (a non-empty text that
    neither begins nor ends with whitespace), clears the input box, raises
    [isLoading] and appends the user's message, carrying that same text,
    after the messages already there. *)
Theorem sendMessage_posts_trimmed_input (r : Render) (clock : Clock) (s : State) :
  match snd (sendMessage r clock s) with
  | None =>
      fst (sendMessage r clock s) = s
      /\ (forallb isWhiteSpace (r_inputMessage r) = true \/ noUserId r = true)
  | Some request =>
      message request = trim (r_inputMessage r)
      /\ message request <> []
      /\ (exists pre post,
            r_inputMessage r = pre ++ message request ++ post
            /\ forallb isWhiteSpace pre = true
            /\ forallb isWhiteSpace post = true)
      /\ (forall u, head (message request) = Some u -> isWhiteSpace u = false)
      /\ (forall u, last (message request) = Some u -> isWhiteSpace u = false)
      /\ (exists i, r_userId r = Some i /\ i <> []
                    /\ url request = lit "/api/" ++ i ++ lit "/chat")
      /\ inputMessage (fst (sendMessage r clock s)) = []
      /\ isLoading (fst (sendMessage r clock s)) = true
      /\ messages (fst (sendMessage r clock s))
         = messages s
           ++ [ {| id := now clock; text := message request;
                   sender := FromUser; timestamp := iso clock |} ]
  end.
Proof.
  unfold sendMessage.
  destruct (truthy (trim (r_inputMessage r))) eqn:Htext; simpl.
  - destruct (noUserId r) eqn:Huser; simpl.
    + split; [reflexivity | now right].
    + destruct (trim_ends (r_inputMessage r))
        as (pre & post & Hs & Hpre & Hpost & Hhead & Hlast).
      split; [reflexivity|].
      split; [intros Hnil; rewrite Hnil in Htext; discriminate|].
      split; [eauto|]. split; [exact Hhead|]. split; [exact Hlast|].
      split; [|auto].
      unfold noUserId in Huser. destruct (r_userId r) as [i|]; [|discriminate].
      exists i. simpl. split; [reflexivity|]. split; [|reflexivity].
      intros ->. discriminate.
  - split; [reflexivity|]. left.
    rewrite trim_truthy in Htext.
    clear -Htext. induction (r_inputMessage r) as [|u rest IH]; [reflexivity|].
    simpl in *. apply orb_false_iff in Htext as [Hu Hrest].
    apply negb_false_iff in Hu. rewrite Hu. simpl. now apply IH.
Qed.

Lemma apply_appends op s :
  messages (apply op s) = messages s ++ appended op.
Proof.
  destruct op as [r clock | o clock]; simpl.
  - unfold sendMessage.
    destruct (truthy (trim (r_inputMessage r))); simpl;
      [|now rewrite app_nil_r].
    destruct (noUserId r); simpl; [now rewrite app_nil_r | reflexivity].
  - reflexivity.
Qed.

(** X15.  However the halves of several [sendMessage] calls interleave, no
    message is lost or reordered: the list afterwards is the list before,
    followed by what each operation appended, in the order the operations
    ran (an accepted send its user message, a settled call its bot
    message, reply or apology); and after a settled call that ran last
    [isLoading] is down. *)
Theorem messages_grow_in_order (ops : list Op) (s : State) :
  messages (foldl (fun acc op => apply op acc) s ops)
  = messages s ++ concat (map appended ops)
  /\ (forall o clock,
        isLoading (foldl (fun acc op => apply op acc) s (ops ++ [Settle o clock]))
        = false).
Proof.
  split.
  - revert s. induction ops as [|op rest IH]; intros s; simpl.
    + now rewrite app_nil_r.
    + rewrite IH, apply_appends. now rewrite <- app_assoc.
  - intros o clock. rewrite foldl_app. reflexivity.
Qed.

End Sending.

(* ===================================================================== *)
(** * The component: what the auto-send timer does *)
(* ===================================================================== *)

Section AutoSendCall.

Import Component.

Local Open Scope nat_scope.

Variable getVoiceErrorMessage : jsstring -> Lang -> jsstring.

Local Abbreviation step := (Component.step getVoiceErrorMessage).
Local Abbreviation run := (Component.run getVoiceErrorMessage).
Local Abbreviation init := Component.init.

(** A [sendMessage] whose render read an empty input returns at its
    guard, so the calls of a timer armed by that render post nothing. *)
Lemma timerCalls_guarded clock r out c :
  Chat.r_inputMessage r = [] ->
  timerCalls clock r out c = (c, map Did out).
Proof.
  intros Hempty. induction out as [|o rest IH]; [reflexivity|].
  destruct o as [e|]; cbn [timerCalls map]; rewrite ?IH; [reflexivity|].
  unfold Chat.sendMessage. rewrite Hempty. cbn. rewrite IH. reflexivity.
Qed.

Lemma posts_Did out : posts (map Did out) = 0.
Proof.
  unfold posts. induction out as [|o rest IH]; [reflexivity|]. exact IH.
Qed.

Lemma posts_posting req : posts (posting req) <= 1.
Proof. destruct req; cbn; lia. Qed.

Lemma posts_app out1 out2 : posts (out1 ++ out2) = posts out1 + posts out2.
Proof. unfold posts. now rewrite List.filter_app, length_app. Qed.

Lemma setInputMessage_same c :
  Chat.setInputMessage (Chat.inputMessage c) c = c.
Proof. now destruct c. Qed.

(** One step keeps the invariant, and posts a request only when it is a
    key press or a click that sends. *)
Lemma step_settled clock ev sys :
  settled_inv sys ->
  settled_inv (fst (step clock ev sys))
  /\ posts (snd (step clock ev sys)) <= (if isUserSend ev then 1 else 0).
Proof.
  intros [Hfirst Hsync].
  destruct ev as [vev|value|e| |o|u]; cbn [Component.step isUserSend].
  - destruct (ChatPage.step getVoiceErrorMessage vev (voice sys)) as [v1 out].
    rewrite (timerCalls_guarded _ _ _ _ Hfirst).
    cbn [commit fst snd]. rewrite posts_Did.
    split; [split; [exact Hfirst | reflexivity] | lia].
  - destruct (Chat.isLoading (chat sys)); cbn [commit fst snd];
      (split; [split; [exact Hfirst | first [exact Hsync | reflexivity]] | cbn; lia]).
  - destruct (Chat.isLoading (chat sys)); cbn [fst snd].
    { split; [split; assumption|]. destruct (_ && _); cbn; lia. }
    unfold Chat.handleKeyPress.
    destruct (bool_decide (Chat.key e = lit "Enter") && negb (Chat.shiftKey e)).
    + destruct (Chat.sendMessage (Chat.renderOf (chat sys)) clock (chat sys))
        as [c1 req].
      cbn [commit fst snd].
      split; [split; [exact Hfirst | reflexivity] | apply posts_posting].
    + cbn [commit fst snd posting].
      split; [split; [exact Hfirst | reflexivity] | cbn; lia].
  - destruct (Chat.sendDisabled (chat sys)); cbn [fst snd].
    { split; [split; assumption | cbn; lia]. }
    destruct (Chat.sendMessage (Chat.renderOf (chat sys)) clock (chat sys))
      as [c1 req].
    cbn [commit fst snd].
    split; [split; [exact Hfirst | reflexivity] | apply posts_posting].
  - destruct (inFlight sys); cbn [fst snd mountRender voice chat].
    + split; [split; assumption | cbn; lia].
    + split; [split; [exact Hfirst | exact Hsync] | cbn; lia].
  - cbn [fst snd]. split; [split; [exact Hfirst | exact Hsync] | cbn; lia].
Qed.

Lemma run_settled evs sys :
  settled_inv sys ->
  settled_inv (fst (run evs sys))
  /\ posts (snd (run evs sys)) <= userSends evs.
Proof.
  revert sys. induction evs as [|[clock ev] rest IH]; intros sys Hinv.
  - cbn. split; [exact Hinv | lia].
  - cbn [Component.run].
    destruct (step_settled clock ev sys Hinv) as [Hinv1 Hposts1].
    destruct (step clock ev sys) as [sys1 out1]. cbn [fst snd] in *.
    destruct (IH sys1 Hinv1) as [Hinv2 Hposts2].
    destruct (run rest sys1) as [sys2 out2]. cbn [fst snd] in *.
    split; [exact Hinv2|]. rewrite posts_app.
    unfold userSends in *. cbn [List.filter snd].
    destruct (isUserSend ev); cbn [length]; lia.
Qed.

(** The recogniser, once constructed, is there after every step of the
    component. *)
Lemma step_keeps_recogniser clock ev sys :
  is_Some (Hook.recognitionRef (ChatPage.hook (voice sys))) ->
  is_Some (Hook.recognitionRef (ChatPage.hook (voice (fst (step clock ev sys))))).
Proof.
  intros Hinst.
  destruct ev as [vev|value|e| |o|u]; cbn [Component.step].
  - assert (Hv : is_Some (Hook.recognitionRef
                            (ChatPage.hook
                               (fst (ChatPage.step getVoiceErrorMessage vev
                                       (voice sys)))))).
    { destruct vev as [hev| |id]; unfold ChatPage.step.
      - pose proof (handle_keeps_instance getVoiceErrorMessage hev _ Hinst) as Hk.
        destruct (Hook.handle getVoiceErrorMessage hev
                    (ChatPage.hook (voice sys))) as [h1 out].
        destruct (ChatPage.deliver out _) as [p1 t1]. cbn [fst ChatPage.hook] in *.
        now apply rerender_keeps_instance.
      - cbn [fst ChatPage.hook]. now apply rerender_keeps_instance.
      - destruct (ChatPage.pending _ !! id); exact Hinst. }
    destruct (ChatPage.step getVoiceErrorMessage vev (voice sys)) as [v1 out].
    destruct (timerCalls _ _ _ _) as [c2 out2]. exact Hv.
  - destruct (Chat.isLoading (chat sys)); exact Hinst.
  - destruct (Chat.isLoading (chat sys)); [exact Hinst|].
    destruct (Chat.handleKeyPress e clock (chat sys)) as [[c1 req] b].
    exact Hinst.
  - destruct (Chat.sendDisabled (chat sys)); [exact Hinst|].
    destruct (Chat.sendMessage _ _ _) as [c1 req]. exact Hinst.
  - destruct (inFlight sys); exact Hinst.
  - exact Hinst.
Qed.

Lemma run_keeps_recogniser evs sys :
  is_Some (Hook.recognitionRef (ChatPage.hook (voice sys))) ->
  is_Some (Hook.recognitionRef (ChatPage.hook (voice (fst (run evs sys))))).
Proof.
  revert sys. induction evs as [|[clock ev] rest IH]; intros sys Hinst;
    [exact Hinst|].
  cbn [Component.run].
  pose proof (step_keeps_recogniser clock ev sys Hinst) as H1.
  destruct (step clock ev sys) as [sys1 out1]. cbn [fst] in *.
  specialize (IH sys1 H1).
  destruct (run rest sys1) as [sys2 out2]. exact IH.
Qed.

(** The callback puts the text it is given into the input box. *)
Lemma onTranscriptReady_input text detected pt :
  ChatPage.inputMessage (fst (ChatPage.onTranscriptReady text detected pt)) = text.
Proof.
  destruct pt as [p t]. unfold ChatPage.onTranscriptReady.
  destruct detected as [d|]; [case_decide|]; reflexivity.
Qed.


(** X16.  The auto-send timer posts nothing.  In every state the
    component reaches, through voice events, timers, typing, key presses,
    clicks on Send, replies and changes of the user: an armed timer that
    runs calls [sendMessage()] when its transcript is not blank, and that
    call (the one of the first render, which read the initial, empty
    [inputMessage]) returns at its guard: no request is posted, and the
    messages, the loading flag and the input box are as before.  A result
    event with final text puts the text into the input box and arms the
    timer, and posts nothing either.  So the requests posted never
    outnumber the key presses and clicks that send. *)
Theorem auto_send_posts_nothing (supported : bool) (u : option jsstring)
    (evs : list (Chat.Clock * Event)) :
  let sys := fst (run evs (init supported u)) in
  let out := snd (run evs (init supported u)) in
  posts out <= userSends evs
  /\ (forall clock id text,
        ChatPage.pending (ChatPage.timers (voice sys)) !! id = Some text ->
        let after := step clock (Voice (ChatPage.Timeout id)) sys in
        snd after
        = (if truthy (trim text) then [Did ChatPage.SendMessage] else [])
        /\ chat (fst after) = chat sys
        /\ inFlight (fst after) = inFlight sys
        /\ ChatPage.pending (ChatPage.timers (voice (fst after))) !! id = None)
  /\ (forall clock event,
        supported = true ->
        truthy (Hook.finalTranscript event) = true ->
        let after :=
          step clock (Voice (ChatPage.FromHook (Hook.OnResult event))) sys in
        Chat.inputMessage (chat (fst after)) = Hook.finalTranscript event
        /\ Chat.messages (chat (fst after)) = Chat.messages (chat sys)
        /\ Chat.isLoading (chat (fst after)) = Chat.isLoading (chat sys)
        /\ posts (snd after) = 0
        /\ exists id,
             ChatPage.pending (ChatPage.timers (voice (fst after))) !! id
             = Some (Hook.finalTranscript event)).
Proof.
  cbv zeta.
  assert (Hinit : settled_inv (init supported u)) by (split; reflexivity).
  destruct (run_settled evs _ Hinit) as [[Hfirst Hsync] Hposts].
  split; [exact Hposts|]. split.
  - intros clock id text Hid. cbn [Component.step].
    unfold ChatPage.step. rewrite Hid.
    rewrite (timerCalls_guarded _ _ _ _ Hfirst).
    cbn [commit fst snd chat voice inFlight ChatPage.page ChatPage.timers
         withInput].
    rewrite posts_Did, Hsync, setInputMessage_same.
    split; [now destruct (truthy (trim text))|].
    split; [reflexivity|]. split; [lia|].
    cbn [ChatPage.clearTimeout ChatPage.pending]. apply lookup_delete_eq.
  - intros clock event -> Hfinal.
    destruct (run_keeps_recogniser evs (init true u) (ex_intro _ _ eq_refl))
      as [r Href].
    cbn [Component.step]. unfold ChatPage.step.
    pose proof (handle_ready_calls getVoiceErrorMessage (Hook.OnResult event)
                  _ r Href) as Hcalls.
    cbv beta iota in Hcalls. rewrite Hfinal in Hcalls.
    destruct (Hook.handle getVoiceErrorMessage (Hook.OnResult event)
                (ChatPage.hook (voice (fst (run evs (init true u))))))
      as [h1 o1]. cbn [fst snd] in Hcalls.
    rewrite deliver_calls, Hcalls. cbn [foldl fst snd].
    match goal with
    | |- context [ChatPage.onTranscriptReady ?text ?det ?pt] =>
        pose proof (onTranscriptReady_input text det pt) as Hinput;
        destruct (onTranscriptReady_arms text det (fst pt) (snd pt))
          as (id & _ & Harmed);
        cbn [fst snd] in Harmed;
        destruct (ChatPage.onTranscriptReady text det pt) as [p1 t1]
    end.
    cbn [fst snd] in Hinput, Harmed.
    rewrite (timerCalls_guarded _ _ _ _ Hfirst).
    cbn [commit fst snd chat voice withInput ChatPage.page ChatPage.timers].
    rewrite posts_Did, Hinput.
    split; [reflexivity|]. split; [reflexivity|]. split; [reflexivity|].
    split; [reflexivity|]. exists id. exact Harmed.
Qed.

End AutoSendCall.

(** The command "show my tasks" is spoken, the timer runs, and only the
    click on Send posts it. *)
Lemma auto_send_posts_nothing_witness :
  let clock := {| Chat.now := 7; Chat.iso := lit "t" |} in
  let spoken :=
    [ (clock, Component.Voice (ChatPage.FromHook Hook.StartRecording));
      (clock, Component.Voice (ChatPage.FromHook Hook.OnStart));
      (clock, Component.Voice
                (ChatPage.FromHook
                   (Hook.OnResult (oneResult true (lit "show my tasks"))))) ] in
  let sys := fst (Component.run voiceErrorText spoken
                    (Component.init true (Some (lit "u1")))) in
  let fired := Component.step voiceErrorText clock
                 (Component.Voice (ChatPage.Timeout 1)) sys in
  ChatPage.pending (ChatPage.timers (Component.voice sys)) !! 1%nat
  = Some (lit "show my tasks")
  /\ snd fired = [Component.Did ChatPage.SendMessage]
  /\ Component.chat (fst fired) = Component.chat sys
  /\ Chat.inputMessage (Component.chat (fst fired)) = lit "show my tasks"
  /\ snd (Component.step voiceErrorText clock Component.SendClick (fst fired))
     = [ Component.Posted {| Chat.url := lit "/api/u1/chat";
                             Chat.message := lit "show my tasks" |} ].
Proof.
  cbv zeta.
  assert (Harmed :
    ChatPage.pending
      (ChatPage.timers
         (Component.voice
            (fst (Component.run voiceErrorText
                    [ ({| Chat.now := 7; Chat.iso := lit "t" |},
                       Component.Voice (ChatPage.FromHook Hook.StartRecording));
                      ({| Chat.now := 7; Chat.iso := lit "t" |},
                       Component.Voice (ChatPage.FromHook Hook.OnStart));
                      ({| Chat.now := 7; Chat.iso := lit "t" |},
                       Component.Voice
                         (ChatPage.FromHook
                            (Hook.OnResult
                               (oneResult true (lit "show my tasks"))))) ]
                    (Component.init true (Some (lit "u1"))))))) !! 1%nat
    = Some (lit "show my tasks")) by (vm_compute; reflexivity).
  pose proof (auto_send_posts_nothing voiceErrorText true (Some (lit "u1"))
                [ ({| Chat.now := 7; Chat.iso := lit "t" |},
                   Component.Voice (ChatPage.FromHook Hook.StartRecording));
                  ({| Chat.now := 7; Chat.iso := lit "t" |},
                   Component.Voice (ChatPage.FromHook Hook.OnStart));
                  ({| Chat.now := 7; Chat.iso := lit "t" |},
                   Component.Voice
                     (ChatPage.FromHook
                        (Hook.OnResult
                           (oneResult true (lit "show my tasks"))))) ])
    as (_ & Htimer & _).
  cbv zeta in Htimer.
  destruct (Htimer {| Chat.now := 7; Chat.iso := lit "t" |} 1%nat
              (lit "show my tasks") Harmed) as (Hout & Hchat & _).
  split; [exact Harmed|]. split; [exact Hout|]. split; [exact Hchat|].
  split; vm_compute; reflexivity.
Defined.

(* ===================================================================== *)
(** * The chat: the error banner *)
(* ===================================================================== *)

Section ErrorBanner.

Import Chat.

Variable getVoiceErrorMessage : jsstring -> Lang -> jsstring.

Local Abbreviation bannerStep := (Chat.bannerStep getVoiceErrorMessage).
Local Abbreviation bannerRun := (Chat.bannerRun getVoiceErrorMessage).

Lemma rendered_keeps_shown error b :
  is_Some (voiceError b) -> is_Some (voiceError (rendered error b)).
Proof.
  intros Hshown. unfold rendered. case_decide; [exact Hshown|]. simpl.
  destruct error as [m|]; [|exact Hshown].
  destruct (truthy m); [eauto | exact Hshown].
Qed.

(** X17.  Only the dismiss button takes an error off the screen: once the
    banner shows a message, it shows one after every run of actions and
    recogniser events without a dismissal, also when the hook has cleared
    its own error (at the start of the next session, or by
    [resetTranscript()]). *)
Theorem banner_stays_until_dismissed (evs : list BannerEvent)
    (hb : Hook.State * Banner) :
  is_Some (voiceError (snd hb)) ->
  forallb (fun ev => match ev with Dismiss => false | _ => true end) evs = true ->
  is_Some (voiceError (snd (bannerRun evs hb))).
Proof.
  revert hb. induction evs as [|ev rest IH]; intros hb Hshown Hno;
    [exact Hshown|].
  cbn [forallb] in Hno. apply andb_true_iff in Hno as [Hev Hrest].
  unfold Chat.bannerRun. cbn [foldl]. apply IH; [|exact Hrest].
  destruct ev as [hev|]; [|discriminate]. simpl.
  now apply rendered_keeps_shown.
Qed.

(** X18.  A dismissed error does not come back when the same error
    happens again: the recogniser fails with some code, the banner is
    dismissed, the recogniser ends, the next [startRecording()] is
    accepted and fails with the same code before its start event (as a
    denied microphone does).  The hook's error is the message throughout,
    so the effect that copies it to the banner never runs again, and the
    banner stays empty while the hook reports the error. *)
Theorem repeated_error_stays_dismissed (h : Hook.State) (b : Banner)
    (r : Speech.SpeechRecognition) (code : jsstring) :
  Hook.recognitionRef h = Some r ->
  Hook.isSupported h = true ->
  let after :=
    bannerRun [ Recogniser (Hook.OnError code); Dismiss;
                Recogniser Hook.OnEnd; Recogniser Hook.StartRecording;
                Recogniser (Hook.OnError code) ] (h, b) in
  Hook.error (fst after)
  = Some (getVoiceErrorMessage code (Speech.language (Hook.mountConfig h)))
  /\ voiceError (snd after) = None.
Proof.
  intros Href Hsup. cbv zeta.
  destruct h as [sup cfg mcfg rec trn txt err det ref tmr].
  simpl in Href, Hsup. subst ref sup. destruct r as [cont intr maxalt tag ph].
  unfold Chat.bannerRun. cbn -[rendered dismiss].
  split; [reflexivity|].
  set (m := getVoiceErrorMessage code (Speech.language mcfg)).
  assert (Hfirst : seenError (rendered (Some m) b) = Some m).
  { unfold rendered. case_decide as Heq; [now rewrite <- Heq | reflexivity]. }
  assert (Hstay : forall b', seenError b' = Some m ->
                             rendered (Some m) b' = b').
  { intros b' Hseen. unfold rendered. rewrite Hseen.
    case_decide; [reflexivity | contradiction]. }
  rewrite (Hstay (dismiss (rendered (Some m) b))) by exact Hfirst.
  rewrite (Hstay (dismiss (rendered (Some m) b))) by exact Hfirst.
  rewrite (Hstay (dismiss (rendered (Some m) b))) by exact Hfirst.
  reflexivity.
Qed.

End ErrorBanner.

(** The microphone is denied while the hook listens; the banner shows the
    message; the next session starts and the hook clears its error. *)
Lemma banner_stays_until_dismissed_witness :
  let hb := Chat.bannerRun voiceErrorText
              [Chat.Recogniser (Hook.OnError (lit "not-allowed"))]
              (listening, Chat.bannerInitial) in
  let evs := [ Chat.Recogniser Hook.OnEnd;
               Chat.Recogniser Hook.StartRecording;
               Chat.Recogniser Hook.OnStart ] in
  is_Some (Chat.voiceError (snd hb))
  /\ Hook.error (fst (Chat.bannerRun voiceErrorText evs hb)) = None
  /\ is_Some (Chat.voiceError (snd (Chat.bannerRun voiceErrorText evs hb))).
Proof.
  cbv zeta.
  assert (Hshown : is_Some (Chat.voiceError
                     (snd (Chat.bannerRun voiceErrorText
                             [Chat.Recogniser (Hook.OnError (lit "not-allowed"))]
                             (listening, Chat.bannerInitial)))))
    by (vm_compute; eauto).
  pose proof (banner_stays_until_dismissed voiceErrorText
                [ Chat.Recogniser Hook.OnEnd;
                  Chat.Recogniser Hook.StartRecording;
                  Chat.Recogniser Hook.OnStart ] _ Hshown eq_refl) as Hstill.
  split; [exact Hshown|]. split; [reflexivity | exact Hstill].
Defined.

(** The microphone is denied twice in a row. *)
Lemma repeated_error_stays_dismissed_witness :
  let after :=
    Chat.bannerRun voiceErrorText
      [ Chat.Recogniser (Hook.OnError (lit "not-allowed")); Chat.Dismiss;
        Chat.Recogniser Hook.OnEnd; Chat.Recogniser Hook.StartRecording;
        Chat.Recogniser (Hook.OnError (lit "not-allowed")) ]
      (starting, Chat.bannerInitial) in
  Hook.error (fst after)
  = Some (lit "Microphone access denied. Please allow microphone permissions.")
  /\ Chat.voiceError (snd after) = None.
Proof.
  exact (repeated_error_stays_dismissed voiceErrorText starting
           Chat.bannerInitial _ (lit "not-allowed") eq_refl eq_refl).
Defined.

(* ===================================================================== *)
(** * The error localizer over any messages object *)
(* ===================================================================== *)

Section LocalizerLogic.

(** X19.  Over any messages object, [getVoiceErrorMessage] throws exactly
    when the code has no message of its own in the language (no entry, or
    an empty text) and the object has no ['network'] entry; with a
    ['network'] entry it never throws, and it returns the code's own
    message whenever that is not empty, the ['network'] message otherwise;
    so with non-empty ['network'] texts every code gets a non-empty
    message. *)
Theorem getVoiceErrorMessage_fallback_logic
    (messages : gmap jsstring Localized) (code : jsstring) (l : Lang) :
  let own := default [] ((fun entry => select entry l) <$> messages !! code) in
  ((exists exn, getVoiceErrorMessage_in messages code l = Throw exn)
   <-> own = [] /\ messages !! lit "network" = None)
  /\ (own <> [] -> getVoiceErrorMessage_in messages code l = Normal own)
  /\ (forall fallback,
        messages !! lit "network" = Some fallback ->
        getVoiceErrorMessage_in messages code l
        = Normal (if truthy own then own else select fallback l)
        /\ (select fallback l <> [] ->
            returned (getVoiceErrorMessage_in messages code l) <> [])).
Proof.
  cbv zeta. unfold getVoiceErrorMessage_in.
  destruct (messages !! code) as [entry|] eqn:Hcode; simpl.
  - destruct (select entry l) as [|u rest] eqn:Hown; simpl.
    + split; [|split; [congruence|]].
      * destruct (messages !! lit "network") as [fb|] eqn:Hnet.
        -- split; [intros [exn [=]] | intros [_ [=]]].
        -- split; [auto | eauto].
      * intros fb Hnet. rewrite Hnet. simpl. auto.
    + split; [|split; [reflexivity|]].
      * split; [intros [exn [=]] | intros [[=] _]].
      * intros fb Hnet. split; [reflexivity | discriminate].
  - split; [|split; [congruence|]].
    + destruct (messages !! lit "network") as [fb|] eqn:Hnet.
      * split; [intros [exn [=]] | intros [_ [=]]].
      * split; [auto | eauto].
    + intros fb Hnet. rewrite Hnet. simpl. auto.
Qed.

End LocalizerLogic.

(** An empty messages object makes the function throw. *)
Lemma getVoiceErrorMessage_fallback_logic_witness :
  (∅ : gmap jsstring Localized) !! lit "network" = None
  /\ exists exn, getVoiceErrorMessage_in ∅ (lit "aborted") en = Throw exn.
Proof.
  destruct (getVoiceErrorMessage_fallback_logic ∅ (lit "aborted") en)
    as (Hthrow & _).
  split; [reflexivity|]. apply Hthrow. split; reflexivity.
Defined.

(* ===================================================================== *)
(** * Sample runs of the properties above *)
(* ===================================================================== *)

(** [stopRecording()] while the hook listens. *)
Lemma actions_keep_flags_witness :
  In Hook.StopRecording
     [Hook.StartRecording; Hook.StopRecording; Hook.ResetTranscript;
      Hook.Rerender urduAutoDetect]
  /\ Hook.isRecording (fst (Hook.handle voiceErrorText Hook.StopRecording listening))
     = true.
Proof.
  destruct (actions_keep_flags voiceErrorText listening urduAutoDetect)
    as [Hframe _].
  assert (Hin : In Hook.StopRecording
                   [Hook.StartRecording; Hook.StopRecording;
                    Hook.ResetTranscript; Hook.Rerender urduAutoDetect])
    by (right; left; reflexivity).
  split; [exact Hin|].
  destruct (Hframe _ Hin) as (Hrec & _). rewrite Hrec. reflexivity.
Defined.

(** The page after a final transcript of two blanks: its timer runs
    without dispatching. *)
Lemma blank_transcript_not_dispatched_witness :
  ChatPage.pending (ChatPage.timers blankArmed) !! 1%nat = Some (lit "  ")
  /\ ChatPage.inputMessage (ChatPage.page blankArmed) = lit "  "
  /\ snd (ChatPage.step voiceErrorText (ChatPage.Timeout 1) blankArmed) = [].
Proof.
  assert (Harmed : ChatPage.pending (ChatPage.timers blankArmed) !! 1%nat
                   = Some (lit "  ")) by (vm_compute; reflexivity).
  destruct (blank_transcript_not_dispatched voiceErrorText blankArmed 1
              (lit "  ") Harmed) as (Hout & _).
  split; [exact Harmed|]. split; [reflexivity | exact Hout].
Defined.

(** The page switched to Urdu by the button; an English transcript then
    leaves it in Urdu. *)
Lemma detection_never_switches_back_witness :
  let sys := fst (ChatPage.run voiceErrorText [ChatPage.ToggleLanguage]
                    (ChatPage.init true)) in
  let evs := [ ChatPage.FromHook Hook.StartRecording;
               ChatPage.FromHook Hook.OnStart;
               ChatPage.FromHook
                 (Hook.OnResult (oneResult true (lit "show my tasks"))) ] in
  ChatPage.language (ChatPage.page sys) = ur
  /\ Hook.detectedLanguage
       (ChatPage.hook (fst (ChatPage.run voiceErrorText evs sys))) = Some en
  /\ ChatPage.language
       (ChatPage.page (fst (ChatPage.run voiceErrorText evs sys))) = ur.
Proof.
  cbv zeta.
  pose proof (detection_never_switches_back voiceErrorText
                [ ChatPage.FromHook Hook.StartRecording;
                  ChatPage.FromHook Hook.OnStart;
                  ChatPage.FromHook
                    (Hook.OnResult (oneResult true (lit "show my tasks"))) ]
                (fst (ChatPage.run voiceErrorText [ChatPage.ToggleLanguage]
                        (ChatPage.init true)))
                eq_refl eq_refl) as Hur.
  split; [reflexivity|]. split; [vm_compute; reflexivity | exact Hur].
Defined.

(** " hi " typed by the user [u1]. *)
Lemma sendMessage_posts_trimmed_input_witness :
  let s := {| Chat.messages := []; Chat.inputMessage := lit " hi ";
              Chat.isLoading := false; Chat.userId := Some (lit "u1") |} in
  let clock := {| Chat.now := 5; Chat.iso := lit "t" |} in
  snd (Chat.sendMessage (Chat.renderOf s) clock s)
  = Some {| Chat.url := lit "/api/u1/chat"; Chat.message := lit "hi" |}
  /\ Chat.inputMessage (fst (Chat.sendMessage (Chat.renderOf s) clock s)) = [].
Proof.
  cbv zeta.
  pose proof (sendMessage_posts_trimmed_input
                (Chat.renderOf
                   {| Chat.messages := []; Chat.inputMessage := lit " hi ";
                      Chat.isLoading := false; Chat.userId := Some (lit "u1") |})
                {| Chat.now := 5; Chat.iso := lit "t" |}
                {| Chat.messages := []; Chat.inputMessage := lit " hi ";
                   Chat.isLoading := false; Chat.userId := Some (lit "u1") |})
    as Hsend.
  assert (Hreq : snd (Chat.sendMessage
                        (Chat.renderOf
                           {| Chat.messages := [];
                              Chat.inputMessage := lit " hi ";
                              Chat.isLoading := false;
                              Chat.userId := Some (lit "u1") |})
                        {| Chat.now := 5; Chat.iso := lit "t" |}
                        {| Chat.messages := []; Chat.inputMessage := lit " hi ";
                           Chat.isLoading := false;
                           Chat.userId := Some (lit "u1") |})
                 = Some {| Chat.url := lit "/api/u1/chat";
                           Chat.message := lit "hi" |})
    by (vm_compute; reflexivity).
  rewrite Hreq in Hsend. destruct Hsend as (_ & _ & _ & _ & _ & _ & Hinput & _).
  split; [exact Hreq | exact Hinput].
Defined.

(* ===================================================================== *)
(** * The scenarios of the specification, run on the model *)
(* ===================================================================== *)

Section Scenarios.

(** "show my tasks" is English; "mere kaam dikhayen" in Urdu script is
    Urdu; a single Arabic-block letter inside English text tips the whole
    string to Urdu; a supplementary-plane character (a surrogate pair) does
    not. *)
Example detectLanguage_samples :
  detectLanguage (lit "show my tasks") = en
  /\ detectLanguage [0x0645; 0x06CC; 0x0631; 0x06D2; 0x0020; 0x06A9; 0x0627;
                     0x0645; 0x0020; 0x062F; 0x06A9; 0x06BE; 0x0627; 0x0626;
                     0x06CC; 0x06BA] = ur
  /\ detectLanguage (lit "task " ++ [0x06A9]) = ur
  /\ detectLanguage [0xD83D; 0xDE00] = en
  /\ codePoints [0xD83D; 0xDE00] = [0x1F600].
Proof. repeat split; reflexivity. Qed.

(** Scenario B: an Urdu final transcript is detected as Urdu, and the page
    has switched its language, and with it the recogniser's tag, before the
    timer runs. *)
Example urdu_transcript_switches_language :
  let text := [0x0645; 0x06CC; 0x0631; 0x06D2; 0x0020; 0x06A9; 0x0627; 0x0645] in
  let evs :=
    [ ChatPage.FromHook Hook.StartRecording;
      ChatPage.FromHook Hook.OnStart;
      ChatPage.FromHook (Hook.OnResult (oneResult true text)) ] in
  let sys := fst (ChatPage.run voiceErrorText evs (ChatPage.init true)) in
  Hook.detectedLanguage (ChatPage.hook sys) = Some ur
  /\ ChatPage.language (ChatPage.page sys) = ur
  /\ (Speech.lang <$> Hook.recognitionRef (ChatPage.hook sys)) = Some (lit "ur-PK")
  /\ map_to_list (ChatPage.pending (ChatPage.timers sys)) = [(1%nat, text)]
  /\ snd (ChatPage.run voiceErrorText evs (ChatPage.init true))
     = [ ChatPage.Voice (Hook.RecognitionStart (lit "en-US"));
         ChatPage.Voice (Hook.TranscriptReady text (Some ur)) ].
Proof. vm_compute. repeat split; reflexivity. Qed.

(** Scenario C: the recogniser reports a denied permission while
    recording; the error is the permission message, the flags are down,
    and once the recogniser has ended the next start is accepted. *)
Example permission_denied_then_restart :
  let failed :=
    fst (Hook.run voiceErrorText [Hook.OnError (lit "not-allowed")] listening) in
  let again :=
    Hook.run voiceErrorText [Hook.OnEnd; Hook.StartRecording] failed in
  Hook.isRecording failed = false
  /\ Hook.isTranscribing failed = false
  /\ Hook.error failed
     = Some (lit "Microphone access denied. Please allow microphone permissions.")
  /\ snd again = [Hook.RecognitionStart (lit "en-US")].
Proof. vm_compute. repeat split; reflexivity. Qed.

End Scenarios.
